(** * FindTheSpy backend: the room coordinator of [app/routers/game.py]

    The request handlers of [app/routers/game.py] are embedded as pure
    functions on the content of the four tables the handlers read and write
    ([rooms], [players], [votes], [round_results]).  A handler returns
    [Ok db'] with the new content of the store, or [Err e] with the HTTP
    error it raises; every error of the handlers is raised before the first
    committed write or inside a transaction that is rolled back, so an
    error leaves the store as it was.

    What the handlers draw from outside is passed in as an argument:
    the positions picked by [random.sample], the room codes drawn by
    [random.choices], the value handed out by the [players.id] sequence and
    the outcome of the word request.  So is what SQL leaves to the store:
    which of several groups of equal count the vote count answers with,
    and the row and the order of rows of the SELECTs of round-results.
    Broadcasts over the web sockets do not touch the store and are left
    out.

    A TEXT value is held as the bytes of its UTF-8 encoding; equality of
    the bytes is equality of the text, and [py_len] counts its characters
    as Python's [len] does.  Integer columns are INT and a write outside
    their range fails. *)

From Stdlib Require Import List ZArith String Ascii Bool Arith Lia Permutation Sorted.
Import ListNotations.

Local Open Scope string_scope.
Local Open Scope list_scope.
Local Open Scope Z_scope.

(** Equality test on TEXT values. *)
Infix "=s" := String.eqb (at level 70, no associativity).

(** ** Errors and results *)

(** The status codes given to [HTTPException]; an exception that is not an
    [HTTPException] reaches the client as a 500. *)
Inductive http_error : Type :=
| BadRequest   (* 400 *)
| Forbidden    (* 403 *)
| NotFound     (* 404 *)
| ServerError. (* 500 *)

Inductive result (A : Type) : Type :=
| Ok (a : A)
| Err (e : http_error).

Arguments Ok {A} a.
Arguments Err {A} e.

Definition bind {A B : Type} (r : result A) (f : A -> result B) : result B :=
  match r with
  | Ok a => f a
  | Err e => Err e
  end.

Notation "'do' x <- r ; k" := (bind r (fun x => k))
  (at level 10, x name, r at level 100, k at level 200).

(** ** Tables *)

(** [rooms.status] is TEXT with the values the handlers write. *)
Inductive Status : Type := waiting | ongoing | ended.

(** [rooms.current_phase]: the handlers write 'discussion' and 'voting'. *)
Inductive Phase : Type := no_phase | discussion | voting.

(** Modelled from the spec: the columns [host_name] and [current_phase] of
    [rooms] and the unique index of [votes] on (room_code, voter_name,
    round) are used by the handlers but are not created by
    [app/models.py]; they are taken from the schema of section 6 of the
    specification, with [no_phase] for a room that has not started. *)
Record Room : Type := mkRoom {
  code : string;
  mafia_count : Z;
  host_name : string;
  status : Status;
  current_phase : Phase
}.

(** [is_mafia] and [word] have no default and are NULL until a round
    starts. *)
Record Player : Type := mkPlayer {
  id : Z;
  room_code : string;
  name : string;
  is_mafia : option bool;
  eliminated : bool;
  word : option string;
  score : Z;
  round : Z
}.

Record Vote : Type := mkVote {
  v_room_code : string;
  v_round : Z;
  voter_name : string;
  voted_name : string
}.

(** The [timestamp] column (DEFAULT NOW()) is never read and is left out,
    as are the serial [id] columns of [rooms], [votes] and
    [round_results]. *)
Record RoundResult : Type := mkResult {
  r_room_code : string;
  r_round : Z;
  eliminated_player : string;
  was_mafia : option bool
}.

Record DB : Type := mkDB {
  rooms : list Room;
  players : list Player;
  votes : list Vote;
  round_results : list RoundResult
}.

Definition empty_db : DB := mkDB [] [] [] [].

Definition set_players (db : DB) (ps : list Player) : DB :=
  mkDB (rooms db) ps (votes db) (round_results db).

Definition set_votes (db : DB) (vs : list Vote) : DB :=
  mkDB (rooms db) (players db) vs (round_results db).

Definition set_rooms (db : DB) (rs : list Room) : DB :=
  mkDB rs (players db) (votes db) (round_results db).

Definition set_round_results (db : DB) (rr : list RoundResult) : DB :=
  mkDB (rooms db) (players db) (votes db) rr.

(** Largest value of an INT column. *)
Definition int4_max : Z := 2147483647.
Definition int4_min : Z := -2147483648.

Definition in_int4 (z : Z) : bool := (int4_min <=? z) && (z <=? int4_max).

(** SQL [x = TRUE] and [x = FALSE] on a nullable boolean: NULL satisfies
    neither.  Python's [if x:] on the fetched value is [is_true] too. *)
Definition is_true (b : option bool) : bool :=
  match b with Some true => true | _ => false end.

Definition is_false (b : option bool) : bool :=
  match b with Some false => true | _ => false end.

(** ** Queries *)

(** SELECT ... FROM rooms WHERE code = $1, first row. *)
Definition find_room (db : DB) (c : string) : option Room :=
  find (fun rm => code rm =s c) (rooms db).

(** SELECT ... FROM players WHERE room_code = $1. *)
Definition room_players (db : DB) (c : string) : list Player :=
  filter (fun p => room_code p =s c) (players db).

(** SELECT ... FROM players WHERE room_code = $1 AND name = $2, first
    row. *)
Definition find_player (db : DB) (c n : string) : option Player :=
  find (fun p => (room_code p =s c) && (name p =s n)) (players db).

(** MAX over a column: NULL when there is no row. *)
Definition sql_max (l : list Z) : option Z :=
  match l with
  | [] => None
  | x :: t => Some (fold_left Z.max t x)
  end.

(** SELECT MAX(round) FROM round_results WHERE room_code = $1. *)
Definition max_round (db : DB) (c : string) : option Z :=
  sql_max (map r_round (filter (fun r => r_room_code r =s c) (round_results db))).

(** Python's [v or d] on an integer or None. *)
Definition py_or (v : option Z) (d : Z) : Z :=
  match v with
  | Some x => if x =? 0 then d else x
  | None => d
  end.

Definition current_round (db : DB) (c : string) : Z := py_or (max_round db c) 1.

(** ... FROM votes WHERE room_code = $1 AND round = $2. *)
Definition round_votes (db : DB) (c : string) (r : Z) : list Vote :=
  filter (fun v => (v_room_code v =s c) && (v_round v =? r)) (votes db).

(** COUNT of the rows of a group. *)
Definition count_for (n : string) (vs : list Vote) : nat :=
  List.length (filter (fun v => voted_name v =s n) vs).

(** The groups of GROUP BY voted_name: every name once, in the order of
    its first vote. *)
Fixpoint group_names (vs : list Vote) : list string :=
  match vs with
  | [] => []
  | v :: t => voted_name v :: filter (fun n => negb (n =s voted_name v)) (group_names t)
  end.

(** The largest COUNT( * ) of a group. *)
Definition max_votes (vs : list Vote) : nat :=
  fold_right Nat.max 0%nat (map (fun n => count_for n vs) (group_names vs)).

(** The groups that ORDER BY votes DESC may put first. *)
Definition top_groups (vs : list Vote) : list string :=
  filter (fun n => Nat.eqb (count_for n vs) (max_votes vs)) (group_names vs).

(** SELECT voted_name, COUNT( * ) AS votes ... GROUP BY voted_name
    ORDER BY votes DESC LIMIT 1.  SQL leaves the order among groups of equal
    count open, and with it the row that LIMIT 1 keeps; [tie] stands for
    what settles it when the query runs.  Every group with the largest
    count is the answer for some [tie], and a single such group is the
    answer for every [tie]. *)
Definition top_voted (tie : nat) (vs : list Vote) : option string :=
  nth_error (top_groups vs) (tie mod List.length (top_groups vs)).

(** SELECT COUNT(DISTINCT voter_name) FROM votes WHERE room_code = $1 AND
    round = $2. *)
Definition distinct_voters (db : DB) (c : string) (r : Z) : nat :=
  List.length (nodup string_dec (map voter_name (round_votes db c r))).

(** ** Writes *)

Definition same_key (c voter : string) (r : Z) (v : Vote) : bool :=
  (v_room_code v =s c) && (voter_name v =s voter) && (v_round v =? r).

(** INSERT INTO votes ... ON CONFLICT (room_code, voter_name, round)
    DO UPDATE SET voted_name = EXCLUDED.voted_name. *)
Definition upsert_vote (vs : list Vote) (c : string) (r : Z) (voter voted : string)
  : list Vote :=
  if existsb (same_key c voter r) vs
  then map (fun v => if same_key c voter r v
                     then mkVote (v_room_code v) (v_round v) (voter_name v) voted
                     else v) vs
  else vs ++ [mkVote c r voter voted].

Definition set_score (p : Player) (s : Z) : Player :=
  mkPlayer (id p) (room_code p) (name p) (is_mafia p) (eliminated p) (word p) s (round p).

(** UPDATE players SET score = score + 1 WHERE [sel]; the statement fails
    as a whole when a selected score is already the largest INT. *)
Definition add_point (sel : Player -> bool) (ps : list Player) : result (list Player) :=
  if existsb (fun p => sel p && (int4_max <=? score p)) ps
  then Err ServerError
  else Ok (map (fun p => if sel p then set_score p (score p + 1) else p) ps).

Definition set_status (rm : Room) (s : Status) : Room :=
  mkRoom (code rm) (mafia_count rm) (host_name rm) s (current_phase rm).

(** UPDATE rooms SET status = 'ended' WHERE code = $1. *)
Definition end_status (db : DB) (c : string) : list Room :=
  map (fun rm => if code rm =s c then set_status rm ended else rm) (rooms db).

(** UPDATE rooms SET status = 'ongoing', current_phase = 'discussion'
    WHERE code = $1. *)
Definition open_discussion (db : DB) (c : string) : list Room :=
  map (fun rm => if code rm =s c
                 then mkRoom (code rm) (mafia_count rm) (host_name rm) ongoing discussion
                 else rm) (rooms db).

(** UPDATE rooms SET current_phase = 'voting' WHERE code = $1. *)
Definition open_voting (db : DB) (c : string) : list Room :=
  map (fun rm => if code rm =s c
                 then mkRoom (code rm) (mafia_count rm) (host_name rm) (status rm) voting
                 else rm) (rooms db).

(** INSERT INTO players (room_code, name): [id] from the sequence,
    [eliminated], [score] and [round] from their defaults.  The insert is
    refused by the primary key or by UNIQUE(room_code, name). *)
Definition insert_player (db : DB) (new_id : Z) (c n : string) : option DB :=
  if existsb (fun p => (id p =? new_id) || ((room_code p =s c) && (name p =s n)))
             (players db)
  then None
  else Some (set_players db (players db ++ [mkPlayer new_id c n None false None 0 1])).

(** ** Role assignment *)

(** [random.sample(population, k)]: ValueError when [k] is negative or
    larger than the population, otherwise the elements at the [k] distinct
    positions [idx] that the generator picked. *)
Definition random_sample (population : list Z) (k : Z) (idx : list nat)
  : result (list Z) :=
  if (k <? 0) || (Z.of_nat (List.length population) <? k) then Err ServerError
  else Ok (map (fun i => nth i population 0) idx).

(** What the generator may pick for a sample of size [k]. *)
Definition valid_draw (population : list Z) (k : Z) (idx : list nat) : Prop :=
  NoDup idx /\
  Forall (fun i => (i < List.length population)%nat) idx /\
  Z.of_nat (List.length idx) = k.

Definition fallback_words : string * string := ("apple", "banana").

(** The [try] block of [assign_words_and_roles]: [reply] is [Some] of the
    two words read from the answer of the word service, [None] when
    anything in the block raised (connection error, timeout, an answer that
    is not JSON or holds fewer than two items). *)
Definition fetch_words (reply : option (string * string)) : string * string :=
  match reply with
  | Some w => w
  | None => fallback_words
  end.

(** UPDATE players SET is_mafia = $1, word = $2, round = $3,
    eliminated = FALSE WHERE id = $4. *)
Definition update_role (m : bool) (w : string) (rn pid : Z) (ps : list Player)
  : list Player :=
  map (fun p => if id p =? pid
                then mkPlayer (id p) (room_code p) (name p) (Some m) false (Some w)
                              (score p) rn
                else p) ps.

(** [players_] are the ids fetched by the caller.  The updates run in one
    transaction; a round number that does not fit the INT column makes the
    first of them fail. *)
Definition assign_words_and_roles (db : DB) (players_ mafia_ids : list Z)
    (next_round_num : Z) (reply : option (string * string))
  : result (DB * (string * string)) :=
  let '(civilian_word, spy_word) := fetch_words reply in
  if negb (in_int4 next_round_num) && negb (Nat.eqb (List.length players_) 0)
  then Err ServerError
  else
    Ok (set_players db
          (fold_left
             (fun ps pid =>
                let m := existsb (Z.eqb pid) mafia_ids in
                update_role m (if m then spy_word else civilian_word)
                            next_round_num pid ps)
             players_ (players db)),
        (civilian_word, spy_word)).

(** ** Round resolution *)

(** SELECT v.voter_name FROM votes v JOIN players p ON v.voted_name = p.name
    WHERE v.room_code = $1 AND v.round = $2 AND p.is_mafia = TRUE
    AND p.room_code = $1. *)
Definition spy_voters (db : DB) (c : string) (r : Z) : list string :=
  map voter_name
      (filter (fun v => existsb (fun p => (voted_name v =s name p)
                                          && is_true (is_mafia p)
                                          && (room_code p =s c))
                                (players db))
              (round_votes db c r)).

(** SELECT voter_name FROM votes WHERE room_code = $1 AND round = $2
    AND voted_name = $3. *)
Definition correct_voters (db : DB) (c : string) (r : Z) (n : string) : list string :=
  map voter_name (filter (fun v => voted_name v =s n) (round_votes db c r)).

Definition mem (n : string) (l : list string) : bool := existsb (String.eqb n) l.

(** WHERE room_code = $1 AND is_mafia = TRUE AND name NOT IN
    (SELECT voted_name FROM votes WHERE room_code = $1 AND round = $2). *)
Definition unvoted_spy (db : DB) (c : string) (r : Z) (p : Player) : bool :=
  (room_code p =s c) && is_true (is_mafia p)
  && negb (mem (name p) (map voted_name (round_votes db c r))).

(** WHERE room_code = $1 AND is_mafia = FALSE AND name IN (spy voters). *)
Definition civilian_on_spy (db : DB) (c : string) (r : Z) (p : Player) : bool :=
  (room_code p =s c) && is_false (is_mafia p) && mem (name p) (spy_voters db c r).

(** WHERE room_code = $1 AND name = ANY($2) AND is_mafia = FALSE. *)
Definition civilian_on_eliminated (db : DB) (c : string) (r : Z) (n : string)
    (p : Player) : bool :=
  (room_code p =s c) && mem (name p) (correct_voters db c r n) && is_false (is_mafia p).

(** INSERT INTO round_results, then UPDATE rooms SET status = 'ended'. *)
Definition record_result (db : DB) (ps : list Player) (c : string) (r : Z)
    (n : string) (m : option bool) : DB :=
  mkDB (end_status db c) ps (votes db) (round_results db ++ [mkResult c r n m]).

(** [process_round_results(conn, room_code, current_round)], run inside
    the transaction of [vote].  A winner that is no player of the room
    makes [eliminated["is_mafia"]] raise a TypeError. *)
Definition process_round_results (db : DB) (c : string) (r : Z) (tie : nat)
  : result DB :=
  match top_voted tie (round_votes db c r) with
  | None => Err BadRequest
  | Some eliminated_name =>
      match find_player db c eliminated_name with
      | None => Err ServerError
      | Some e =>
          do ps <- add_point (if is_true (is_mafia e)
                              then civilian_on_spy db c r
                              else unvoted_spy db c r) (players db);
          Ok (record_result db ps c r eliminated_name (is_mafia e))
      end
  end.

(** ** Request handlers *)

(** A byte 10xxxxxx continues a character of UTF-8 text. *)
Definition is_continuation (a : ascii) : bool :=
  let n := nat_of_ascii a in (128 <=? n)%nat && (n <? 192)%nat.

(** Python's [len] of a str: the number of its characters. *)
Fixpoint py_len (s : string) : nat :=
  match s with
  | EmptyString => 0%nat
  | String a t => ((if is_continuation a then 0 else 1) + py_len t)%nat
  end.

Section Handlers.

(** [str.upper] of Python. *)
Variable upper : string -> string.

(** [generate_unique_room_code]: at most ten draws [draws 0 .. draws 9] of
    [random.choices]; the first one that is no room code yet. *)
Definition generate_unique_room_code (db : DB) (draws : nat -> string)
  : result string :=
  match find (fun c => negb (existsb (fun rm => code rm =s c) (rooms db)))
             (map draws (seq 0 10)) with
  | Some c => Ok c
  | None => Err ServerError
  end.

(** POST /create-room: every exception becomes a 500. *)
Definition create_room (db : DB) (mafia_count_ : Z) (name_ : string)
    (draws : nat -> string) (new_id : Z) : result DB :=
  match generate_unique_room_code db draws with
  | Err _ => Err ServerError
  | Ok c =>
      if negb (in_int4 mafia_count_) then Err ServerError
      else
        match insert_player
                (set_rooms db (rooms db ++ [mkRoom c mafia_count_ name_ waiting no_phase]))
                new_id c name_ with
        | None => Err ServerError
        | Some db' => Ok db'
        end
  end.

(** POST /join-room. *)
Definition join_room (db : DB) (room_code_ name_ : string) (new_id : Z) : result DB :=
  if (py_len name_ <? 1)%nat || (30 <? py_len name_)%nat
  then Err BadRequest
  else
    let c := upper room_code_ in
    match find_room db c with
    | None => Err NotFound
    | Some _ =>
        match insert_player db new_id c name_ with
        | None => Err BadRequest
        | Some db' => Ok db'
        end
    end.

(** [fetchval("SELECT host_name FROM rooms WHERE code = $1") == name]:
    the fetched value is None when there is no such room. *)
Definition is_host (db : DB) (c name_ : string) : bool :=
  match find_room db c with
  | Some rm => host_name rm =s name_
  | None => false
  end.

(** [p["id"] for p in players]. *)
Definition player_ids (db : DB) (c : string) : list Z := map id (room_players db c).

(** POST /start-round. *)
Definition start_round (db : DB) (room_code_ name_ : string) (idx : list nat)
    (reply : option (string * string)) : result DB :=
  let c := upper room_code_ in
  if negb (is_host db c name_) then Err Forbidden
  else
    match find_room db c with
    | None => Err NotFound
    | Some room =>
        let players_ := player_ids db c in
        if Z.of_nat (List.length players_) <? mafia_count room then Err BadRequest
        else
          do mafia_ids <- random_sample players_ (mafia_count room) idx;
          do a <- assign_words_and_roles db players_ mafia_ids 1 reply;
          Ok (set_rooms (fst a) (open_discussion (fst a) c))
    end.

(** POST /start-voting. *)
Definition start_voting (db : DB) (room_code_ name_ : string) : result DB :=
  let c := upper room_code_ in
  if negb (is_host db c name_) then Err Forbidden
  else
    match find_room db c with
    | None => Err NotFound
    | Some room =>
        match current_phase room with
        | discussion => Ok (set_rooms db (open_voting db c))
        | _ => Err BadRequest
        end
    end.

(** POST /end-game: the four DELETE statements. *)
Definition end_game (db : DB) (room_code_ name_ : string) : result DB :=
  let c := upper room_code_ in
  if negb (is_host db c name_) then Err Forbidden
  else
    Ok (mkDB (filter (fun rm => negb (code rm =s c)) (rooms db))
             (filter (fun p => negb (room_code p =s c)) (players db))
             (filter (fun v => negb (v_room_code v =s c)) (votes db))
             (filter (fun r => negb (r_room_code r =s c)) (round_results db))).

(** POST /vote: the upsert, the quorum test and the resolution share one
    transaction, so an error of the resolution undoes the upsert. *)
Definition vote (db : DB) (room_code_ voter_name_ voted_name_ : string) (tie : nat)
  : result DB :=
  let c := upper room_code_ in
  let r := current_round db c in
  let db1 := set_votes db (upsert_vote (votes db) c r voter_name_ voted_name_) in
  let active_players := List.length (room_players db1 c) in
  let current_votes := distinct_voters db1 c r in
  if (active_players <=? current_votes)%nat
  then process_round_results db1 c r tie
  else Ok db1.

(** POST /end-round: the request carries the room code only. *)
Definition end_round (db : DB) (room_code_ : string) (tie : nat) : result DB :=
  let c := upper room_code_ in
  let r := current_round db c in
  match top_voted tie (round_votes db c r) with
  | None => Err BadRequest
  | Some eliminated_name =>
      match find_player db c eliminated_name with
      | None => Err NotFound
      | Some e =>
          do ps <- add_point (if is_true (is_mafia e)
                              then civilian_on_eliminated db c r eliminated_name
                              else unvoted_spy db c r) (players db);
          Ok (record_result db ps c r eliminated_name (is_mafia e))
      end
  end.

(** POST /next-round.  After the host check the room exists, so
    [mafia_count] is fetched; were it None, the comparison would raise. *)
Definition next_round (db : DB) (room_code_ name_ : string) (idx : list nat)
    (reply : option (string * string)) : result DB :=
  let c := upper room_code_ in
  if negb (is_host db c name_) then Err Forbidden
  else
    let next_round_num := py_or (max_round db c) 0 + 1 in
    let players_ := player_ids db c in
    match find_room db c with
    | None => Err ServerError
    | Some room =>
        if Z.of_nat (List.length players_) <? mafia_count room then Err BadRequest
        else
          do mafia_ids <- random_sample players_ (mafia_count room) idx;
          do a <- assign_words_and_roles db players_ mafia_ids next_round_num reply;
          let db1 := set_rooms (fst a) (open_discussion (fst a) c) in
          Ok (set_votes db1 (filter (fun v => negb (v_room_code v =s c)) (votes db1)))
    end.

(** ** Read-only requests *)

(** GET /is-host/{room_code}/{name}. *)
Definition check_host (db : DB) (room_code_ name_ : string) : bool :=
  is_host db (upper room_code_) name_.

(** GET /player-word/{room_code}/{name}: the room code is used as it is
    given.  The answer holds [word] and [is_mafia]. *)
Definition get_player_word (db : DB) (room_code_ name_ : string)
  : result (option string * option bool) :=
  match find_player db room_code_ name_ with
  | None => Err NotFound
  | Some p => Ok (word p, is_mafia p)
  end.

(** GET /players/{room_code}: name and score of every player, the room
    code used as it is given. *)
Definition get_players_public (db : DB) (room_code_ : string) : list (string * Z) :=
  map (fun p => (name p, score p)) (room_players db room_code_).

(** GET /vote-count: the room code is used as it is given. *)
Definition get_vote_count (db : DB) (room_code_ : string) : nat :=
  distinct_voters db room_code_ (current_round db room_code_).

(** GET /room-status/{room_code}. *)
Definition get_room_status (db : DB) (room_code_ : string) : result (Status * Phase) :=
  match find_room db (upper room_code_) with
  | None => Err NotFound
  | Some rm => Ok (status rm, current_phase rm)
  end.

(** ORDER BY score DESC: rows of equal score are kept in table order. *)
Fixpoint insert_by_score (x : string * Z) (l : list (string * Z)) : list (string * Z) :=
  match l with
  | [] => [x]
  | y :: t => if snd x <? snd y then y :: insert_by_score x t else x :: y :: t
  end.

Definition order_by_score_desc (l : list (string * Z)) : list (string * Z) :=
  fold_right insert_by_score [] l.

(** GET /leaderboard/{room_code}. *)
Definition leaderboard (db : DB) (room_code_ : string) : list (string * Z) :=
  order_by_score_desc
    (map (fun p => (name p, score p)) (room_players db (upper room_code_))).

(** The rows of round_results of a round of a room. *)
Definition result_rows (db : DB) (c : string) (r : Z) : list RoundResult :=
  filter (fun x => (r_room_code x =s c) && (r_round x =? r)) (round_results db).

(** SELECT eliminated_player, was_mafia FROM round_results WHERE
    room_code = $1 AND round = $2, fetched with [fetchrow]: one of the
    rows, [pick] standing for what settles which. *)
Definition find_result (pick : nat) (db : DB) (c : string) (r : Z) : option RoundResult :=
  nth_error (result_rows db c r) (pick mod List.length (result_rows db c r)).

(** GET /round-results/{room_code}: the votes of the current round, the
    eliminated player and was_mafia (None while the round has no result),
    and name, score and is_mafia of every player.  The two SELECTs of
    several rows have no ORDER BY: [order_votes] and [order_players] are
    the order in which the store hands their rows out. *)
Definition get_round_results (order_votes : list Vote -> list Vote)
    (order_players : list Player -> list Player) (pick : nat)
    (db : DB) (room_code_ : string)
  : list (string * string) * option string * option bool
    * list (string * Z * option bool) :=
  let c := upper room_code_ in
  let r := current_round db c in
  (map (fun v => (voter_name v, voted_name v)) (order_votes (round_votes db c r)),
   option_map eliminated_player (find_result pick db c r),
   match find_result pick db c r with
   | Some x => was_mafia x
   | None => None
   end,
   map (fun p => (name p, score p, is_mafia p)) (order_players (room_players db c))).

(** ** Commands and reachable stores *)

Inductive command : Type :=
| CreateRoom (mafia_count_ : Z) (name_ : string) (draws : nat -> string) (new_id : Z)
| JoinRoom (room_code_ name_ : string) (new_id : Z)
| StartRound (room_code_ name_ : string) (idx : list nat) (reply : option (string * string))
| StartVoting (room_code_ name_ : string)
| EndGame (room_code_ name_ : string)
| CastVote (room_code_ voter_name_ voted_name_ : string) (tie : nat)
| EndRound (room_code_ : string) (tie : nat)
| NextRound (room_code_ name_ : string) (idx : list nat) (reply : option (string * string)).

Definition run (cmd : command) (db : DB) : result DB :=
  match cmd with
  | CreateRoom m n draws i => create_room db m n draws i
  | JoinRoom c n i => join_room db c n i
  | StartRound c n idx reply => start_round db c n idx reply
  | StartVoting c n => start_voting db c n
  | EndGame c n => end_game db c n
  | CastVote c voter voted tie => vote db c voter voted tie
  | EndRound c tie => end_round db c tie
  | NextRound c n idx reply => next_round db c n idx reply
  end.

(** A request that fails leaves the store as it was. *)
Definition step (db : DB) (cmd : command) : DB :=
  match run cmd db with
  | Ok db' => db'
  | Err _ => db
  end.

Definition run_all (cmds : list command) (db : DB) : DB := fold_left step cmds db.

(** The stores the service can be in, starting from empty tables. *)
Inductive reachable : DB -> Prop :=
| reach_empty : reachable empty_db
| reach_step db cmd db' : reachable db -> run cmd db = Ok db' -> reachable db'.

End Handlers.

(** ** A concrete game *)

(** [str.upper] on ASCII text. *)
Definition upper_ascii (a : ascii) : ascii :=
  let n := nat_of_ascii a in
  if ((97 <=? n) && (n <=? 122))%nat then ascii_of_nat (n - 32) else a.

Fixpoint ascii_upper (s : string) : string :=
  match s with
  | EmptyString => EmptyString
  | String a t => String (upper_ascii a) (ascii_upper t)
  end.

(** Ann opens room ABCDEF with one spy, Bob and Cara join, the round
    starts with Bob as the spy, and all three vote for Bob. *)
Definition three_player_game : list command :=
  [ CreateRoom 1 "Ann" (fun _ => "ABCDEF") 1;
    JoinRoom "abcdef" "Bob" 2;
    JoinRoom "ABCDEF" "Cara" 3;
    StartRound "ABCDEF" "Ann" [1%nat] None;
    StartVoting "ABCDEF" "Ann";
    CastVote "ABCDEF" "Ann" "Bob" 0%nat;
    CastVote "ABCDEF" "Bob" "Bob" 0%nat;
    CastVote "ABCDEF" "Cara" "Bob" 0%nat ].

(** Ann opens room ABCDEF with two spies; Ann and Bob are the spies of
    the round; Cara and Dan vote for Ann, Eve votes for Bob. *)
Definition two_spy_game : list command :=
  [ CreateRoom 2 "Ann" (fun _ => "ABCDEF") 1;
    JoinRoom "ABCDEF" "Bob" 2;
    JoinRoom "ABCDEF" "Cara" 3;
    JoinRoom "ABCDEF" "Dan" 4;
    JoinRoom "ABCDEF" "Eve" 5;
    StartRound "ABCDEF" "Ann" [0%nat; 1%nat] None;
    StartVoting "ABCDEF" "Ann";
    CastVote "ABCDEF" "Cara" "Ann" 0%nat;
    CastVote "ABCDEF" "Dan" "Ann" 0%nat;
    CastVote "ABCDEF" "Eve" "Bob" 0%nat ].

Definition two_spy_store : DB := run_all ascii_upper two_spy_game empty_db.

(** Stores along the three-player game: the lobby after the joins, the
    room in discussion, the round with two of three votes cast, and the
    round after the third vote has resolved it. *)
Definition lobby_store : DB := run_all ascii_upper (firstn 3 three_player_game) empty_db.

Definition discussion_store : DB :=
  run_all ascii_upper (firstn 4 three_player_game) empty_db.

Definition two_votes_store : DB :=
  run_all ascii_upper (firstn 7 three_player_game) empty_db.

Definition resolved_store : DB := run_all ascii_upper three_player_game empty_db.

(** Bob changes his vote to Cara. *)
Definition revote_store : DB :=
  step ascii_upper two_votes_store (CastVote "ABCDEF" "Bob" "Cara" 0%nat).

(** The same room with Ann and Bob voting for Cara, who is no spy. *)
Definition votes_on_cara_store : DB :=
  run_all ascii_upper
    (firstn 5 three_player_game
     ++ [CastVote "ABCDEF" "Ann" "Cara" 0%nat; CastVote "ABCDEF" "Bob" "Cara" 0%nat])
    empty_db.

(** SELECT name, score FROM players WHERE room_code = $1. *)
Definition scores (db : DB) (c : string) : list (string * Z) :=
  map (fun p => (name p, score p)) (room_players db c).

(** The rows of [round_results] of one round of one room. *)
Definition results_for (db : DB) (c : string) (r : Z) : list RoundResult :=
  filter (fun x => (r_room_code x =s c) && (r_round x =? r)) (round_results db).

(** The columns of the unique index of [votes]. *)
Definition vote_key (v : Vote) : string * string * Z :=
  (v_room_code v, voter_name v, v_round v).

(** A room whose status is 'ongoing' is in discussion or voting. *)
Definition phase_ok (rm : Room) : Prop :=
  status rm = ongoing -> current_phase rm = discussion \/ current_phase rm = voting.

(** A room that waits has no phase yet. *)
Definition waiting_unphased (rm : Room) : Prop :=
  status rm = waiting -> current_phase rm = no_phase.

(** Either path of round resolution, on round [r] of room [c]. *)
Definition resolved (upper : string -> string) (db : DB) (c : string) (r : Z)
    (tie : nat) (db' : DB) : Prop :=
  process_round_results db c r tie = Ok db' \/
  exists room_code_, c = upper room_code_ /\ r = current_round db c /\
                     end_round upper db room_code_ tie = Ok db'.

(** A civilian of room [c] with a vote of round [r] on a spy of the room. *)
Definition voted_for_a_spy (db : DB) (c : string) (r : Z) (p : Player) : Prop :=
  room_code p = c /\ is_mafia p = Some false /\
  exists v s, In v (round_votes db c r) /\ voter_name v = name p /\
              In s (players db) /\ room_code s = c /\ is_mafia s = Some true /\
              voted_name v = name s.

(** The requests that check the host: room code and caller name. *)
Definition host_gated (cmd : command) : option (string * string) :=
  match cmd with
  | StartRound c n _ _ => Some (c, n)
  | StartVoting c n => Some (c, n)
  | NextRound c n _ _ => Some (c, n)
  | EndGame c n => Some (c, n)
  | _ => None
  end.

(** The row that the UPDATE of [assign_words_and_roles] writes for [p]. *)
Definition role_row (mafia_ids : list Z) (words : string * string) (rn : Z)
    (p : Player) : Player :=
  let m := existsb (Z.eqb (id p)) mafia_ids in
  mkPlayer (id p) (room_code p) (name p) (Some m) false
           (Some (if m then snd words else fst words)) (score p) rn.

(** Room [c] after a role assignment with [k] spies, the word pair
    [words] = (civilian word, spy word) and round number [rn]. *)
Definition roles_assigned (db : DB) (c : string) (k : Z) (words : string * string)
    (rn : Z) : Prop :=
  Z.of_nat (List.length (filter (fun p => is_true (is_mafia p)) (room_players db c))) = k /\
  forall p, In p (room_players db c) ->
    (is_mafia p = Some true /\ word p = Some (snd words) \/
     is_mafia p = Some false /\ word p = Some (fst words)) /\
    round p = rn /\ eliminated p = false.

(** Further stores of the three-player game: the room just created, the
    room in the voting phase, and the resolved room after the host has
    started the next round or ended the game. *)
Definition created_store : DB := run_all ascii_upper (firstn 1 three_player_game) empty_db.

Definition voting_store : DB := run_all ascii_upper (firstn 5 three_player_game) empty_db.

Definition next_round_store : DB :=
  run_all ascii_upper
    (three_player_game ++ [NextRound "ABCDEF" "Ann" [0%nat] None]) empty_db.

Definition ended_game_store : DB :=
  run_all ascii_upper (three_player_game ++ [EndGame "ABCDEF" "Ann"]) empty_db.


(** The columns of UNIQUE(room_code, name) of [players]. *)
Definition player_key (p : Player) : string * string := (room_code p, name p).

(** The row that INSERT INTO players (room_code, name) adds. *)
Definition new_player (new_id : Z) (c n : string) : Player :=
  mkPlayer new_id c n None false None 0 1.

(** * Properties *)

(** ** The answer of the vote count *)

Lemma group_names_in (vs : list Vote) (n : string) :
  In n (group_names vs) <-> In n (map voted_name vs).
Proof.
  induction vs as [| v t IH]; simpl; [tauto |].
  rewrite filter_In, IH, negb_true_iff, String.eqb_neq.
  destruct (string_dec (voted_name v) n) as [E | E]; [tauto |].
  split; [tauto | intros [H | H]; [contradiction | right; split; [exact H | congruence]]].
Qed.

Lemma fold_max_ge {A : Type} (f : A -> nat) (l : list A) (x : A) :
  In x l -> (f x <= fold_right Nat.max 0 (map f l))%nat.
Proof.
  induction l as [| a l IH]; simpl; [intros [] |].
  intros [<- | H]; [lia | specialize (IH H); lia].
Qed.

Lemma fold_max_attained {A : Type} (f : A -> nat) (l : list A) :
  l <> [] -> exists x, In x l /\ f x = fold_right Nat.max 0%nat (map f l).
Proof.
  induction l as [| a l IH]; [contradiction |]; intros _; simpl.
  destruct l as [| b l].
  - exists a; split; [left; reflexivity | simpl; lia].
  - destruct IH as [x [Hin E]]; [discriminate |].
    destruct (Nat.max_spec (f a) (fold_right Nat.max 0%nat (map f (b :: l))))
      as [[_ M] | [_ M]]; rewrite M.
    + exists x; split; [right; exact Hin | exact E].
    + exists a; split; [left; reflexivity | reflexivity].
Qed.

Lemma count_for_absent (n : string) (vs : list Vote) :
  ~ In n (map voted_name vs) -> count_for n vs = 0%nat.
Proof.
  unfold count_for; induction vs as [| v t IH]; simpl; intro H; [reflexivity |].
  destruct (voted_name v =s n) eqn:E.
  - apply String.eqb_eq in E; exfalso; apply H; left; exact E.
  - apply IH; intro Hin; apply H; right; exact Hin.
Qed.

(** The groups that can come first are the names with a vote that no
    name outnumbers. *)
Lemma top_groups_spec (vs : list Vote) (n : string) :
  In n (top_groups vs) <->
  In n (map voted_name vs) /\ forall m, (count_for m vs <= count_for n vs)%nat.
Proof.
  unfold top_groups; rewrite filter_In, group_names_in, Nat.eqb_eq.
  split.
  - intros [Hin E]; split; [exact Hin |].
    intro m; rewrite E.
    destruct (in_dec string_dec m (map voted_name vs)) as [Hm | Hm].
    + apply (fold_max_ge (fun n => count_for n vs)), group_names_in, Hm.
    + rewrite (count_for_absent _ _ Hm); lia.
  - intros [Hin Hmax]; split; [exact Hin |].
    assert (group_names vs <> []) as Hne.
    { intro E; apply group_names_in in Hin; rewrite E in Hin; destruct Hin. }
    destruct (fold_max_attained (fun n => count_for n vs) _ Hne) as [x [Hx E]].
    unfold max_votes; rewrite <- E.
    apply Nat.le_antisymm; [| apply Hmax].
    rewrite E; apply (fold_max_ge (fun n => count_for n vs)), group_names_in, Hin.
Qed.

Lemma top_groups_nil (vs : list Vote) : top_groups vs = [] <-> vs = [].
Proof.
  split; [| intros ->; reflexivity].
  intro E; destruct vs as [| v t]; [reflexivity | exfalso].
  assert (group_names (v :: t) <> []) as Hne by (simpl; discriminate).
  destruct (fold_max_attained (fun n => count_for n (v :: t)) _ Hne) as [x [Hx M]].
  assert (In x (top_groups (v :: t))) as Hin.
  { unfold top_groups; apply filter_In; split; [exact Hx |].
    apply Nat.eqb_eq; exact M. }
  rewrite E in Hin; destruct Hin.
Qed.

(** Whatever settles the tie, the answer is a name with a vote that no
    name outnumbers. *)
Lemma top_voted_spec (tie : nat) (vs : list Vote) (n : string) :
  top_voted tie vs = Some n ->
  In n (map voted_name vs) /\ forall m, (count_for m vs <= count_for n vs)%nat.
Proof.
  unfold top_voted; intro H; apply nth_error_In in H.
  apply top_groups_spec; exact H.
Qed.

(** The count has no answer exactly when there is no vote. *)
Lemma top_voted_none (tie : nat) (vs : list Vote) : top_voted tie vs = None <-> vs = [].
Proof.
  unfold top_voted; split.
  - intro H; apply top_groups_nil.
    destruct (top_groups vs) as [| n l] eqn:E; [reflexivity | exfalso].
    apply nth_error_None in H.
    assert (tie mod List.length (n :: l) < List.length (n :: l))%nat
      by (apply Nat.mod_upper_bound; simpl; discriminate).
    lia.
  - intros ->; simpl; destruct tie; reflexivity.
Qed.

(** Every name with a vote that no name outnumbers is the answer for some
    way of settling the tie. *)
Lemma top_voted_any (vs : list Vote) (n : string) :
  In n (map voted_name vs) -> (forall m, (count_for m vs <= count_for n vs)%nat) ->
  exists tie, top_voted tie vs = Some n.
Proof.
  intros Hin Hmax.
  assert (In n (top_groups vs)) as Ht by (apply top_groups_spec; auto).
  apply In_nth_error in Ht; destruct Ht as [i Hi].
  exists i; unfold top_voted.
  rewrite Nat.mod_small; [exact Hi |].
  apply nth_error_Some; congruence.
Qed.

(** Without a tie the answer does not depend on how a tie is settled. *)
Lemma top_voted_single (tie : nat) (vs : list Vote) (n : string) :
  top_groups vs = [n] -> top_voted tie vs = Some n.
Proof.
  unfold top_voted; intros ->.
  change (List.length [n]) with 1%nat.
  rewrite Nat.mod_1_r; reflexivity.
Qed.

Section Properties.

Variable upper : string -> string.

(** ** Basic facts *)

Lemma bind_ok {A B : Type} (r : result A) (f : A -> result B) (b : B) :
  bind r f = Ok b -> exists a, r = Ok a /\ f a = Ok b.
Proof.
  destruct r as [a | e]; simpl; intro H; [exists a; auto | discriminate].
Qed.

Lemma same_key_spec (c voter : string) (r : Z) (v : Vote) :
  same_key c voter r v = true <-> vote_key v = (c, voter, r).
Proof.
  unfold same_key, vote_key.
  rewrite !andb_true_iff, !String.eqb_eq, Z.eqb_eq.
  split.
  - intros [[-> ->] ->]; reflexivity.
  - intros H; inversion H; auto.
Qed.

Lemma add_point_ok (sel : Player -> bool) (ps ps' : list Player) :
  add_point sel ps = Ok ps' ->
  ps' = map (fun p => if sel p then set_score p (score p + 1) else p) ps.
Proof.
  unfold add_point.
  destruct (existsb _ ps); intro H; inversion H; reflexivity.
Qed.

(** The resolution leaves the votes alone. *)
Lemma process_round_results_votes (db db' : DB) (c : string) (r : Z) (tie : nat) :
  process_round_results db c r tie = Ok db' -> votes db' = votes db.
Proof.
  unfold process_round_results.
  destruct (top_voted _) as [n |]; [| discriminate].
  destruct (find_player db c n) as [e |]; [| discriminate].
  intro H; apply bind_ok in H; destruct H as [ps [_ H]].
  inversion H; reflexivity.
Qed.

Lemma vote_votes (db db' : DB) (room_code_ voter voted : string) (tie : nat) :
  vote upper db room_code_ voter voted tie = Ok db' ->
  votes db' =
  upsert_vote (votes db) (upper room_code_) (current_round db (upper room_code_))
              voter voted.
Proof.
  unfold vote.
  destruct (_ <=? _)%nat; intro H.
  - apply process_round_results_votes in H; exact H.
  - inversion H; reflexivity.
Qed.

(** ** The unique index of [votes] *)

Lemma upsert_vote_keys_absent (vs : list Vote) (c voter voted : string) (r : Z) :
  existsb (same_key c voter r) vs = false ->
  ~ In (c, voter, r) (map vote_key vs).
Proof.
  intros H Hin.
  apply in_map_iff in Hin; destruct Hin as [v [Hk Hv]].
  assert (existsb (same_key c voter r) vs = true) as E.
  { apply existsb_exists; exists v; split; [exact Hv | apply same_key_spec; exact Hk]. }
  congruence.
Qed.

Lemma upsert_vote_keys_present (vs : list Vote) (c voter voted : string) (r : Z) :
  map vote_key
      (map (fun v => if same_key c voter r v
                     then mkVote (v_room_code v) (v_round v) (voter_name v) voted
                     else v) vs)
  = map vote_key vs.
Proof.
  rewrite map_map; apply map_ext.
  intro v; destruct (same_key c voter r v); reflexivity.
Qed.

Lemma NoDup_snoc {A : Type} (l : list A) (a : A) :
  NoDup l -> ~ In a l -> NoDup (l ++ [a]).
Proof.
  induction l as [| x l IH]; simpl; intros Hnd Hnot.
  - constructor; [intros [] | constructor].
  - inversion Hnd as [| y ys Hx Hl]; subst.
    constructor.
    + rewrite in_app_iff; simpl; intros [Hin | [Heq | []]]; [auto |].
      apply Hnot; left; symmetry; exact Heq.
    + apply IH; [exact Hl | intro Hin; apply Hnot; right; exact Hin].
Qed.

Lemma upsert_vote_unique (vs : list Vote) (c voter voted : string) (r : Z) :
  NoDup (map vote_key vs) ->
  NoDup (map vote_key (upsert_vote vs c r voter voted)).
Proof.
  intro H; unfold upsert_vote.
  destruct (existsb (same_key c voter r) vs) eqn:E.
  - rewrite upsert_vote_keys_present; exact H.
  - rewrite map_app; simpl.
    apply NoDup_snoc; [exact H |].
    eapply upsert_vote_keys_absent; eauto.
Qed.

Lemma NoDup_map_filter {A B : Type} (f : A -> B) (g : A -> bool) (l : list A) :
  NoDup (map f l) -> NoDup (map f (filter g l)).
Proof.
  induction l as [| a l IH]; simpl; intro H; [constructor |].
  inversion H as [| x xs Hnot Hnd]; subst.
  destruct (g a); simpl; [constructor |]; auto.
  intro Hin; apply Hnot.
  apply in_map_iff in Hin; destruct Hin as [y [Hy Hin]].
  apply filter_In in Hin; destruct Hin as [Hin _].
  apply in_map_iff; exists y; auto.
Qed.

(** ** What a request does to each table *)

Ltac break H :=
  repeat match type of H with
    | Err _ = Ok _ => discriminate H
    | bind _ _ = Ok _ =>
        let a := fresh "a" in
        let E := fresh "E" in
        apply bind_ok in H; destruct H as [a [E H]]
    | (if ?b then _ else _) = Ok _ => destruct b eqn:?
    | match ?x with _ => _ end = Ok _ => destruct x eqn:?
    end.

Lemma assign_words_and_roles_tables (db : DB) (ids mafia_ids : list Z) (rn : Z)
    (reply : option (string * string)) (a : DB * (string * string)) :
  assign_words_and_roles db ids mafia_ids rn reply = Ok a ->
  rooms (fst a) = rooms db /\ votes (fst a) = votes db /\
  round_results (fst a) = round_results db /\
  snd a = fetch_words reply /\
  players (fst a) =
  fold_left (fun ps pid =>
               let m := existsb (Z.eqb pid) mafia_ids in
               update_role m (if m then snd (fetch_words reply)
                              else fst (fetch_words reply)) rn pid ps)
            ids (players db).
Proof.
  unfold assign_words_and_roles.
  destruct (fetch_words reply) as [cw sw]; simpl.
  destruct (_ && _); intro H; inversion H; simpl; auto.
Qed.

Lemma insert_player_tables (db db' : DB) (new_id : Z) (c n : string) :
  insert_player db new_id c n = Some db' ->
  rooms db' = rooms db /\ votes db' = votes db /\
  round_results db' = round_results db /\
  players db' = players db ++ [mkPlayer new_id c n None false None 0 1] /\
  ~ In new_id (map id (players db)).
Proof.
  unfold insert_player.
  destruct (existsb _ (players db)) eqn:E; intro H; inversion H; simpl.
  repeat split; auto.
  intro Hin; apply in_map_iff in Hin; destruct Hin as [p [Hp Hin]].
  assert (existsb (fun p => (id p =? new_id) || ((room_code p =s c) && (name p =s n)))
                  (players db) = true) as T.
  { apply existsb_exists; exists p; split; [exact Hin |].
    rewrite Hp, Z.eqb_refl; reflexivity. }
  congruence.
Qed.

Lemma resolution_tables (db db' : DB) (c : string) (r : Z) (n : string)
    (m : option bool) (sel : Player -> bool) (ps : list Player) :
  add_point sel (players db) = Ok ps ->
  db' = record_result db ps c r n m ->
  rooms db' = end_status db c /\ votes db' = votes db /\
  round_results db' = round_results db ++ [mkResult c r n m] /\
  players db' = map (fun p => if sel p then set_score p (score p + 1) else p) (players db).
Proof.
  intros H ->; apply add_point_ok in H; subst ps; simpl; auto.
Qed.

Lemma run_votes (cmd : command) (db db' : DB) :
  run upper cmd db = Ok db' ->
  votes db' = votes db \/
  (exists c r voter voted, votes db' = upsert_vote (votes db) c r voter voted) \/
  (exists g, votes db' = filter g (votes db)).
Proof.
  destruct cmd; simpl; intro H.
  - unfold create_room in H; break H.
    apply insert_player_tables in Heqo; destruct Heqo as (_ & Hv & _).
    inversion H; subst; left; exact Hv.
  - unfold join_room in H; break H.
    apply insert_player_tables in Heqo0; destruct Heqo0 as (_ & Hv & _).
    inversion H; subst; left; exact Hv.
  - unfold start_round in H; break H.
    apply assign_words_and_roles_tables in E0; destruct E0 as (_ & Hv & _).
    inversion H; subst; left; exact Hv.
  - unfold start_voting in H; break H; inversion H; left; reflexivity.
  - unfold end_game in H; break H; inversion H; right; right; eexists; reflexivity.
  - apply vote_votes in H; right; left; eauto.
  - unfold end_round in H; break H; inversion H; left; reflexivity.
  - unfold next_round in H; break H.
    apply assign_words_and_roles_tables in E0; destruct E0 as (_ & Hv & _).
    inversion H; subst; simpl; right; right; rewrite Hv; eexists; reflexivity.
Qed.

Lemma run_keeps_votes_unique (cmd : command) (db db' : DB) :
  run upper cmd db = Ok db' ->
  NoDup (map vote_key (votes db)) -> NoDup (map vote_key (votes db')).
Proof.
  intros H Hnd.
  destruct (run_votes _ _ _ H) as [E | [(c & r & voter & voted & E) | [g E]]];
    rewrite E.
  - exact Hnd.
  - apply upsert_vote_unique; exact Hnd.
  - apply NoDup_map_filter; exact Hnd.
Qed.

Lemma reachable_votes_unique (db : DB) :
  reachable upper db -> NoDup (map vote_key (votes db)).
Proof.
  induction 1 as [| db cmd db' _ IH H]; [constructor |].
  eapply run_keeps_votes_unique; eauto.
Qed.

Lemma reachable_run_all (cmds : list command) (db : DB) :
  reachable upper db -> reachable upper (run_all upper cmds db).
Proof.
  revert db; induction cmds as [| cmd cmds IH]; simpl; intros db H; [exact H |].
  apply IH; unfold step.
  destruct (run upper cmd db) eqn:E; [| exact H].
  eapply reach_step; eauto.
Qed.

Lemma unique_key_elsewhere (l1 l2 : list Vote) (v0 v : Vote) :
  NoDup (map vote_key (l1 ++ v0 :: l2)) ->
  In v (l1 ++ l2) -> vote_key v <> vote_key v0.
Proof.
  rewrite map_app; simpl; intros Hnd Hin Heq.
  apply NoDup_remove_2 in Hnd; apply Hnd.
  rewrite <- map_app, <- Heq.
  apply in_map; exact Hin.
Qed.

Lemma map_id_on {A : Type} (f : A -> A) (l : list A) :
  (forall a, In a l -> f a = a) -> map f l = l.
Proof.
  induction l as [| a l IH]; simpl; intro H; [reflexivity |].
  rewrite H by (left; reflexivity).
  rewrite IH by (intros; apply H; right; assumption).
  reflexivity.
Qed.

(** With the unique index in force the upsert rewrites one row where it
    stands. *)
Lemma upsert_vote_in_place (l1 l2 : list Vote) (c voter old voted : string) (r : Z) :
  NoDup (map vote_key (l1 ++ mkVote c r voter old :: l2)) ->
  upsert_vote (l1 ++ mkVote c r voter old :: l2) c r voter voted
  = l1 ++ mkVote c r voter voted :: l2.
Proof.
  intro Hnd; unfold upsert_vote.
  assert (same_key c voter r (mkVote c r voter old) = true) as K
      by (apply same_key_spec; reflexivity).
  assert (forall v, In v (l1 ++ l2) -> same_key c voter r v = false) as F.
  { intros v Hin; destruct (same_key c voter r v) eqn:E; [| reflexivity].
    apply same_key_spec in E.
    exfalso; eapply unique_key_elsewhere; eauto. }
  replace (existsb (same_key c voter r) (l1 ++ mkVote c r voter old :: l2)) with true.
  - rewrite map_app; simpl; rewrite K; simpl.
    rewrite !map_id_on; [reflexivity | |];
      intros v Hin; rewrite F; auto; apply in_or_app; auto.
  - symmetry; apply existsb_exists; eexists; split; [| exact K].
    apply in_or_app; right; left; reflexivity.
Qed.

(** C2: in every store the service can reach, a successful vote leaves at
    most one row per (room, voter, round); when the voter already has a
    row for the round, that row is rewritten where it stands with the new
    choice, no row is added, and the number of distinct voters of the
    round is what it was. *)
Theorem vote_is_upsert (db db' : DB) (room_code_ voter voted : string) (tie : nat) :
  reachable upper db ->
  vote upper db room_code_ voter voted tie = Ok db' ->
  NoDup (map vote_key (votes db')) /\
  forall old,
    In (mkVote (upper room_code_) (current_round db (upper room_code_)) voter old)
       (votes db) ->
    (exists l1 l2,
        votes db = l1 ++ mkVote (upper room_code_) (current_round db (upper room_code_))
                                voter old :: l2 /\
        votes db' = l1 ++ mkVote (upper room_code_) (current_round db (upper room_code_))
                                 voter voted :: l2) /\
    List.length (votes db') = List.length (votes db) /\
    distinct_voters db' (upper room_code_) (current_round db (upper room_code_))
    = distinct_voters db (upper room_code_) (current_round db (upper room_code_)).
Proof.
  intros Hr Hv.
  pose proof (reachable_votes_unique db Hr) as Hnd.
  pose proof (vote_votes _ _ _ _ _ _ Hv) as E.
  set (c := upper room_code_) in *; set (r := current_round db c) in *.
  split.
  - rewrite E; apply upsert_vote_unique; exact Hnd.
  - intros old Hin.
    destruct (in_split _ _ Hin) as [l1 [l2 Hs]].
    assert (votes db' = l1 ++ mkVote c r voter voted :: l2) as E'.
    { rewrite E, Hs; apply upsert_vote_in_place; rewrite <- Hs; exact Hnd. }
    split; [exists l1, l2; auto |].
    split.
    + rewrite E', Hs, !length_app; reflexivity.
    + unfold distinct_voters, round_votes.
      rewrite E', Hs, !filter_app; simpl.
      rewrite String.eqb_refl, Z.eqb_refl; simpl.
      rewrite !map_app; reflexivity.
Qed.

(** ** Status and phase *)

Lemma phase_ok_map (f : Room -> Room) (rs : list Room) :
  (forall rm, phase_ok rm -> phase_ok (f rm)) ->
  Forall phase_ok rs -> Forall phase_ok (map f rs).
Proof.
  intros Hf H; induction H; simpl; constructor; auto.
Qed.

Lemma phase_ok_open_discussion (db : DB) (c : string) :
  Forall phase_ok (rooms db) -> Forall phase_ok (open_discussion db c).
Proof.
  apply phase_ok_map; intros rm H.
  destruct (code rm =s c); [| exact H].
  intro; left; reflexivity.
Qed.

Lemma phase_ok_open_voting (db : DB) (c : string) :
  Forall phase_ok (rooms db) -> Forall phase_ok (open_voting db c).
Proof.
  apply phase_ok_map; intros rm H.
  destruct (code rm =s c); [| exact H].
  intro; right; reflexivity.
Qed.

Lemma phase_ok_end_status (db : DB) (c : string) :
  Forall phase_ok (rooms db) -> Forall phase_ok (end_status db c).
Proof.
  apply phase_ok_map; intros rm H.
  destruct (code rm =s c); [| exact H].
  unfold phase_ok; simpl; discriminate.
Qed.

Lemma process_round_results_rooms (db db' : DB) (c : string) (r : Z) (tie : nat) :
  process_round_results db c r tie = Ok db' -> rooms db' = end_status db c.
Proof.
  unfold process_round_results; intro H; break H.
  inversion H; reflexivity.
Qed.

Lemma run_keeps_phase_ok (cmd : command) (db db' : DB) :
  run upper cmd db = Ok db' ->
  Forall phase_ok (rooms db) -> Forall phase_ok (rooms db').
Proof.
  destruct cmd; simpl; intros H Hok.
  - unfold create_room in H; break H.
    apply insert_player_tables in Heqo; destruct Heqo as (Hr & _).
    inversion H; subst; rewrite Hr; simpl.
    apply Forall_app; split; [exact Hok |].
    constructor; [unfold phase_ok; simpl; discriminate | constructor].
  - unfold join_room in H; break H.
    apply insert_player_tables in Heqo0; destruct Heqo0 as (Hr & _).
    inversion H; subst; rewrite Hr; exact Hok.
  - unfold start_round in H; break H.
    apply assign_words_and_roles_tables in E0; destruct E0 as (Hr & _).
    inversion H; subst; simpl.
    apply phase_ok_open_discussion; rewrite Hr; exact Hok.
  - unfold start_voting in H; break H; inversion H; subst; simpl.
    apply phase_ok_open_voting; exact Hok.
  - unfold end_game in H; break H; inversion H; subst; simpl.
    apply Forall_forall; intros rm Hin.
    apply filter_In in Hin; destruct Hin as [Hin _].
    revert rm Hin; apply Forall_forall; exact Hok.
  - unfold vote in H; break H.
    + apply process_round_results_rooms in H; rewrite H.
      apply phase_ok_end_status; exact Hok.
    + inversion H; subst; exact Hok.
  - unfold end_round in H; break H; inversion H; subst; simpl.
    apply phase_ok_end_status; exact Hok.
  - unfold next_round in H; break H.
    apply assign_words_and_roles_tables in E0; destruct E0 as (Hr & _).
    inversion H; subst; simpl.
    apply phase_ok_open_discussion; rewrite Hr; exact Hok.
Qed.

Lemma reachable_phase_ok (db : DB) :
  reachable upper db -> Forall phase_ok (rooms db).
Proof.
  induction 1 as [| db cmd db' _ IH H]; [constructor |].
  eapply run_keeps_phase_ok; eauto.
Qed.

(** ** One row per resolution *)

Lemma Forall2_map_self {A : Type} (R : A -> A -> Prop) (f : A -> A) (l : list A) :
  (forall a, R a (f a)) -> Forall2 R l (map f l).
Proof.
  intro H; induction l; simpl; constructor; auto.
Qed.

Lemma add_point_at_most_one (sel : Player -> bool) (ps ps' : list Player) :
  add_point sel ps = Ok ps' ->
  Forall2 (fun p p' => score p <= score p' <= score p + 1) ps ps'.
Proof.
  intro H; apply add_point_ok in H; subst ps'.
  apply Forall2_map_self; intro p.
  destruct (sel p); simpl; lia.
Qed.

Lemma process_round_results_row (db db' : DB) (c : string) (r : Z) (tie : nat) :
  process_round_results db c r tie = Ok db' ->
  (exists n m, round_results db' = round_results db ++ [mkResult c r n m]) /\
  Forall2 (fun p p' => score p <= score p' <= score p + 1) (players db) (players db').
Proof.
  unfold process_round_results; intro H; break H.
  inversion H; subst; simpl; split; [eauto |].
  eapply add_point_at_most_one; eauto.
Qed.

Lemma end_round_row (db db' : DB) (room_code_ : string) (tie : nat) :
  end_round upper db room_code_ tie = Ok db' ->
  (exists n m, round_results db' =
               round_results db ++ [mkResult (upper room_code_)
                                             (current_round db (upper room_code_)) n m]) /\
  Forall2 (fun p p' => score p <= score p' <= score p + 1) (players db) (players db').
Proof.
  unfold end_round; intro H; break H.
  inversion H; subst; simpl; split; [eauto |].
  eapply add_point_at_most_one; eauto.
Qed.

(** What a stored vote did, told by the count of distinct voters that
    includes it. *)
Lemma vote_cases (db db' : DB) (room_code_ voter voted : string) (tie : nat) :
  vote upper db room_code_ voter voted tie = Ok db' ->
  ((List.length (room_players db (upper room_code_))
    <= distinct_voters db' (upper room_code_) (current_round db (upper room_code_)))%nat /\
   process_round_results
     (set_votes db (upsert_vote (votes db) (upper room_code_)
                                (current_round db (upper room_code_)) voter voted))
     (upper room_code_) (current_round db (upper room_code_)) tie = Ok db')
  \/
  ((distinct_voters db' (upper room_code_) (current_round db (upper room_code_))
    < List.length (room_players db (upper room_code_)))%nat /\
   db' = set_votes db (upsert_vote (votes db) (upper room_code_)
                                   (current_round db (upper room_code_)) voter voted)).
Proof.
  intro H.
  pose proof (vote_votes _ _ _ _ _ _ H) as Hv.
  assert (distinct_voters db' (upper room_code_) (current_round db (upper room_code_))
          = distinct_voters
              (set_votes db
                 (upsert_vote (votes db) (upper room_code_)
                    (current_round db (upper room_code_)) voter voted))
              (upper room_code_) (current_round db (upper room_code_))) as Hd
      by (unfold distinct_voters, round_votes; rewrite Hv; reflexivity).
  rewrite Hd; unfold vote in H.
  change (room_players
            (set_votes db
               (upsert_vote (votes db) (upper room_code_)
                  (current_round db (upper room_code_)) voter voted))
            (upper room_code_))
    with (room_players db (upper room_code_)) in H.
  destruct (_ <=? _)%nat eqn:Q.
  - apply Nat.leb_le in Q; left; auto.
  - apply Nat.leb_gt in Q; right; split; [exact Q | inversion H; reflexivity].
Qed.

(** C1, as the handlers have it: a successful vote or end-round request
    resolves the round at most once.  A vote that leaves the distinct
    voters of the round fewer than the players of the room changes neither
    scores nor round results.  A vote that brings the distinct voters of
    the round to the number of players of the room or beyond, and every
    end-round request, appends exactly one RoundResult row, for the room
    and its current round, and raises no score by more than one point.
    Nothing in the handlers bounds the number of resolutions of a round. *)
Theorem resolution_adds_one_result (db db' : DB) (cmd : command) (room_code_ : string)
    (tie : nat) :
  run upper cmd db = Ok db' ->
  (cmd = EndRound room_code_ tie \/
   exists voter voted, cmd = CastVote room_code_ voter voted tie) ->
  ((exists voter voted, cmd = CastVote room_code_ voter voted tie) ->
   (distinct_voters db' (upper room_code_) (current_round db (upper room_code_))
    < List.length (room_players db (upper room_code_)))%nat ->
   players db' = players db /\ round_results db' = round_results db)
  /\
  (cmd = EndRound room_code_ tie \/
   (List.length (room_players db (upper room_code_))
    <= distinct_voters db' (upper room_code_) (current_round db (upper room_code_)))%nat ->
   (exists n m, round_results db' =
                round_results db ++ [mkResult (upper room_code_)
                                              (current_round db (upper room_code_)) n m]) /\
   Forall2 (fun p p' => score p <= score p' <= score p + 1) (players db) (players db')).
Proof.
  intros H [-> | [voter [voted ->]]]; simpl in H.
  - split.
    + intros [v [v' E]]; discriminate E.
    + intros _; apply end_round_row with (tie := tie); exact H.
  - destruct (vote_cases _ _ _ _ _ _ H) as [[Hq Hp] | [Hq ->]]; split.
    + intros _ Hlt; lia.
    + intros _; apply process_round_results_row in Hp; exact Hp.
    + intros _ _; split; reflexivity.
    + intros [E | Hle]; [discriminate E | lia].
Qed.

(** ** Scoring *)

Lemma set_score_same (p : Player) : set_score p (score p) = p.
Proof. destruct p; reflexivity. Qed.

Lemma mem_spec (n : string) (l : list string) : mem n l = true <-> In n l.
Proof.
  unfold mem; rewrite existsb_exists; split.
  - intros [x [Hin E]]; apply String.eqb_eq in E; subst; exact Hin.
  - intro Hin; exists n; split; [exact Hin | apply String.eqb_refl].
Qed.

Lemma count_for_zero (n : string) (vs : list Vote) :
  count_for n vs = 0%nat <-> mem n (map voted_name vs) = false.
Proof.
  unfold count_for, mem.
  induction vs as [| v vs IH]; simpl; [tauto |].
  rewrite (String.eqb_sym n (voted_name v)).
  destruct (voted_name v =s n); simpl; [| exact IH].
  split; discriminate.
Qed.

Lemma is_true_spec (b : option bool) : is_true b = true <-> b = Some true.
Proof. destruct b as [[|] |]; simpl; split; congruence. Qed.

Lemma is_false_spec (b : option bool) : is_false b = true <-> b = Some false.
Proof. destruct b as [[|] |]; simpl; split; congruence. Qed.

Lemma unvoted_spy_spec (db : DB) (c : string) (r : Z) (p : Player) :
  unvoted_spy db c r p = true <->
  room_code p = c /\ is_mafia p = Some true /\
  count_for (name p) (round_votes db c r) = 0%nat.
Proof.
  unfold unvoted_spy.
  rewrite !andb_true_iff, String.eqb_eq, is_true_spec, negb_true_iff, count_for_zero.
  tauto.
Qed.

Lemma civilian_on_spy_spec (db : DB) (c : string) (r : Z) (p : Player) :
  civilian_on_spy db c r p = true <-> voted_for_a_spy db c r p.
Proof.
  unfold civilian_on_spy, voted_for_a_spy, spy_voters.
  rewrite !andb_true_iff, String.eqb_eq, is_false_spec, mem_spec, in_map_iff.
  split.
  - intros [[Hc Hm] [v [Hn Hin]]].
    apply filter_In in Hin; destruct Hin as [Hin E].
    apply existsb_exists in E; destruct E as [s [Hs E]].
    rewrite !andb_true_iff, !String.eqb_eq, is_true_spec in E.
    destruct E as [[E1 E2] E3].
    split; [exact Hc |]; split; [exact Hm |].
    exists v, s; repeat split; assumption.
  - intros (Hc & Hm & v & s & Hin & Hn & Hs & Hsc & Hsm & Hv).
    repeat split; auto; exists v; split; [exact Hn |].
    apply filter_In; split; [exact Hin |].
    apply existsb_exists; exists s; split; [exact Hs |].
    rewrite !andb_true_iff, !String.eqb_eq, is_true_spec; auto.
Qed.

Lemma add_point_pointwise (sel : Player -> bool) (P : Player -> Prop)
    (ps ps' : list Player) :
  (forall p, sel p = true <-> P p) ->
  add_point sel ps = Ok ps' ->
  Forall2 (fun p p' => p' = set_score p (score p') /\
                       (P p -> score p' = score p + 1) /\
                       (~ P p -> score p' = score p)) ps ps'.
Proof.
  intros Hsel H; apply add_point_ok in H; subst ps'.
  apply Forall2_map_self; intro p.
  destruct (sel p) eqn:E.
  - simpl; split; [reflexivity | split]; [reflexivity |].
    intro Hn; exfalso; apply Hn, Hsel, E.
  - rewrite set_score_same; split; [reflexivity | split]; [| reflexivity].
    intro HP; apply Hsel in HP; congruence.
Qed.

(** C4: when the resolution of round [r] of room [c], by a vote that
    completes the quorum or by end-round, eliminates a player who is not a
    spy, every spy of the room that no vote of the round names gains
    exactly one point, and every other player row (spies with a vote,
    civilians, players of other rooms) keeps its score; no other column
    of a player changes. *)
Theorem civilian_eliminated_scoring (db db' : DB) (c : string) (r : Z)
    (n : string) (e : Player) (tie : nat) :
  resolved upper db c r tie db' ->
  top_voted tie (round_votes db c r) = Some n ->
  find_player db c n = Some e ->
  is_mafia e <> Some true ->
  Forall2 (fun p p' =>
             p' = set_score p (score p') /\
             (room_code p = c /\ is_mafia p = Some true /\
              count_for (name p) (round_votes db c r) = 0%nat ->
              score p' = score p + 1) /\
             (~ (room_code p = c /\ is_mafia p = Some true /\
                 count_for (name p) (round_votes db c r) = 0%nat) ->
              score p' = score p))
          (players db) (players db').
Proof.
  intros Hres Htop Hfind Hciv.
  assert (is_true (is_mafia e) = false) as F.
  { destruct (is_true (is_mafia e)) eqn:E; [| reflexivity].
    apply is_true_spec in E; contradiction. }
  destruct Hres as [H | [room_code_ [-> [-> H]]]].
  - unfold process_round_results in H.
    rewrite Htop, Hfind, F in H.
    apply bind_ok in H; destruct H as [ps [E H]]; inversion H; subst; simpl.
    eapply add_point_pointwise; [| exact E].
    intro p; apply unvoted_spy_spec.
  - unfold end_round in H.
    rewrite Htop, Hfind, F in H.
    apply bind_ok in H; destruct H as [ps [E H]]; inversion H; subst; simpl.
    eapply add_point_pointwise; [| exact E].
    intro p; apply unvoted_spy_spec.
Qed.

(** The quorum path of the resolution scores an eliminated spy as the
    rule says: every civilian of the room with a vote of the round on
    some spy of the room gains one point, and nobody else. *)
Lemma process_round_results_spy_eliminated (db db' : DB) (c : string) (r : Z)
    (n : string) (e : Player) (tie : nat) :
  process_round_results db c r tie = Ok db' ->
  top_voted tie (round_votes db c r) = Some n ->
  find_player db c n = Some e ->
  is_mafia e = Some true ->
  Forall2 (fun p p' =>
             p' = set_score p (score p') /\
             (voted_for_a_spy db c r p -> score p' = score p + 1) /\
             (~ voted_for_a_spy db c r p -> score p' = score p))
          (players db) (players db').
Proof.
  intros H Htop Hfind Hspy.
  unfold process_round_results in H.
  rewrite Htop, Hfind, Hspy in H; simpl in H.
  apply bind_ok in H; destruct H as [ps [E H]]; inversion H; subst; simpl.
  eapply add_point_pointwise; [| exact E].
  intro p; apply civilian_on_spy_spec.
Qed.

(** When the eliminated player is no spy the two paths of the resolution
    are the same function of the store. *)
Lemma paths_agree_on_civilian (db : DB) (room_code_ n : string) (e : Player) (tie : nat) :
  top_voted tie (round_votes db (upper room_code_) (current_round db (upper room_code_)))
  = Some n ->
  find_player db (upper room_code_) n = Some e ->
  is_mafia e <> Some true ->
  end_round upper db room_code_ tie
  = process_round_results db (upper room_code_) (current_round db (upper room_code_)) tie.
Proof.
  intros Htop Hfind Hciv.
  unfold end_round, process_round_results.
  rewrite Htop, Hfind.
  destruct (is_true (is_mafia e)) eqn:E; [| reflexivity].
  apply is_true_spec in E; contradiction.
Qed.

(** The two paths eliminate the same player, write the same RoundResult
    row and end the same room; they can differ in the scores only. *)
Lemma paths_agree_on_result_row (db db1 db2 : DB) (room_code_ : string) (tie : nat) :
  end_round upper db room_code_ tie = Ok db1 ->
  process_round_results db (upper room_code_) (current_round db (upper room_code_)) tie
  = Ok db2 ->
  rooms db1 = rooms db2 /\ votes db1 = votes db2 /\
  round_results db1 = round_results db2.
Proof.
  unfold end_round, process_round_results.
  destruct (top_voted _) as [n |]; [| discriminate].
  destruct (find_player _ _ n) as [e |]; [| discriminate].
  intros H1 H2.
  apply bind_ok in H1; destruct H1 as [ps1 [_ H1]].
  apply bind_ok in H2; destruct H2 as [ps2 [_ H2]].
  inversion H1; inversion H2; simpl; auto.
Qed.

(** ** Host check *)

Lemma is_host_other (db : DB) (c n : string) (rm : Room) :
  find_room db c = Some rm -> host_name rm <> n -> is_host db c n = false.
Proof.
  intros Hf Hn; unfold is_host; rewrite Hf.
  apply String.eqb_neq; exact Hn.
Qed.

Lemma is_host_missing (db : DB) (c n : string) :
  find_room db c = None -> is_host db c n = false.
Proof.
  intros Hf; unfold is_host; rewrite Hf; reflexivity.
Qed.

Lemma not_host_forbidden (cmd : command) (db : DB) (c n : string) :
  host_gated cmd = Some (c, n) ->
  is_host db (upper c) n = false ->
  run upper cmd db = Err Forbidden.
Proof.
  destruct cmd; simpl; intro H; inversion H; subst; intro Hh.
  - unfold start_round; rewrite Hh; reflexivity.
  - unfold start_voting; rewrite Hh; reflexivity.
  - unfold end_game; rewrite Hh; reflexivity.
  - unfold next_round; rewrite Hh; reflexivity.
Qed.

(** C8, as the handlers have it: start-round, start-voting, next-round
    and end-game on an existing room, sent under a name that is not the
    room's host_name, fail with Forbidden and leave every table as it
    was.  End-round is not among them: its request carries no name. *)
Theorem non_host_is_forbidden (cmd : command) (db : DB) (c n : string) (rm : Room) :
  host_gated cmd = Some (c, n) ->
  find_room db (upper c) = Some rm ->
  host_name rm <> n ->
  run upper cmd db = Err Forbidden /\ step upper db cmd = db.
Proof.
  intros Hg Hf Hn.
  assert (run upper cmd db = Err Forbidden) as E.
  { eapply not_host_forbidden; eauto using is_host_other. }
  split; [exact E | unfold step; rewrite E; reflexivity].
Qed.

(** A host-checked request on a room code that names no room is refused
    by the host check, before the room is looked up. *)
Lemma missing_room_is_forbidden (cmd : command) (db : DB) (c n : string) :
  host_gated cmd = Some (c, n) ->
  find_room db (upper c) = None ->
  run upper cmd db = Err Forbidden.
Proof.
  intros Hg Hf; eapply not_host_forbidden; eauto using is_host_missing.
Qed.

(** ** Role assignment *)

Lemma role_row_again (mafia_ids : list Z) (words : string * string) (rn : Z)
    (p : Player) :
  role_row mafia_ids words rn (role_row mafia_ids words rn p)
  = role_row mafia_ids words rn p.
Proof. reflexivity. Qed.

(** The loop of updates by id is one pass over the table. *)
Lemma assign_loop (mafia_ids : list Z) (words : string * string) (rn : Z)
    (ids : list Z) (ps : list Player) :
  fold_left (fun ps pid =>
               let m := existsb (Z.eqb pid) mafia_ids in
               update_role m (if m then snd words else fst words) rn pid ps)
            ids ps
  = map (fun p => if existsb (Z.eqb (id p)) ids
                  then role_row mafia_ids words rn p else p) ps.
Proof.
  revert ps; induction ids as [| pid ids IH]; intro ps; simpl.
  - symmetry; apply map_id_on; reflexivity.
  - rewrite IH; unfold update_role; rewrite map_map.
    apply map_ext; intro p.
    destruct (id p =? pid) eqn:E.
    + apply Z.eqb_eq in E; subst pid; simpl.
      destruct (existsb (Z.eqb (id p)) ids); reflexivity.
    + reflexivity.
Qed.

Lemma assigned_room (mafia_ids : list Z) (words : string * string) (rn : Z)
    (c : string) (ps : list Player) :
  filter (fun p => room_code p =s c)
         (map (fun p => if existsb (Z.eqb (id p))
                                   (map id (filter (fun p => room_code p =s c) ps))
                        then role_row mafia_ids words rn p else p) ps)
  = map (role_row mafia_ids words rn) (filter (fun p => room_code p =s c) ps).
Proof.
  set (ids := map id (filter (fun p => room_code p =s c) ps)).
  assert (forall p, In p ps -> (room_code p =s c) = true ->
                    existsb (Z.eqb (id p)) ids = true) as Hids.
  { intros p Hin Hc; apply existsb_exists; exists (id p).
    split; [| apply Z.eqb_refl].
    apply in_map, filter_In; auto. }
  clearbody ids.
  induction ps as [| p ps IH]; simpl; [reflexivity |].
  assert (room_code (if existsb (Z.eqb (id p)) ids
                     then role_row mafia_ids words rn p else p) = room_code p) as Hc
      by (destruct (existsb _ ids); reflexivity).
  rewrite Hc.
  destruct (room_code p =s c) eqn:E; simpl.
  - rewrite (Hids p) by (simpl; auto).
    rewrite IH by (intros; apply Hids; simpl; auto); reflexivity.
  - apply IH; intros; apply Hids; simpl; auto.
Qed.

Lemma assign_words_and_roles_room (db : DB) (c : string) (mafia_ids : list Z)
    (rn : Z) (reply : option (string * string)) (a : DB * (string * string)) :
  assign_words_and_roles db (player_ids db c) mafia_ids rn reply = Ok a ->
  room_players (fst a) c
  = map (role_row mafia_ids (fetch_words reply) rn) (room_players db c).
Proof.
  intro H; apply assign_words_and_roles_tables in H.
  destruct H as (_ & _ & _ & _ & Hp).
  unfold room_players; rewrite Hp, assign_loop.
  apply assigned_room.
Qed.

Lemma existsb_Zeqb (x : Z) (l : list Z) : existsb (Z.eqb x) l = true <-> In x l.
Proof.
  rewrite existsb_exists; split.
  - intros [y [Hin E]]; apply Z.eqb_eq in E; subst; exact Hin.
  - intro Hin; exists x; split; [exact Hin | apply Z.eqb_refl].
Qed.

(** A sample of [k] distinct positions of a duplicate-free population
    marks exactly [k] of its elements. *)
Lemma sample_marks_k (population : list Z) (k : Z) (idx : list nat) :
  NoDup population ->
  valid_draw population k idx ->
  Z.of_nat (List.length
              (filter (fun x => existsb (Z.eqb x)
                                        (map (fun i => nth i population 0) idx))
                      population)) = k.
Proof.
  intros Hnd (Hidx & Hrange & Hlen).
  rewrite Forall_forall in Hrange.
  set (M := map (fun i => nth i population 0) idx).
  assert (NoDup M) as HM.
  { apply NoDup_map_NoDup_ForallPairs; [| exact Hidx].
    intros i j Hi Hj E.
    apply (proj1 (NoDup_nth population 0) Hnd); auto. }
  assert (Permutation (filter (fun x => existsb (Z.eqb x) M) population) M) as HP.
  { apply NoDup_Permutation; [apply NoDup_filter; exact Hnd | exact HM |].
    intro x; rewrite filter_In, existsb_Zeqb; split; [tauto |].
    intro Hin; split; [| exact Hin].
    apply in_map_iff in Hin; destruct Hin as [i [<- Hi]].
    apply nth_In, Hrange, Hi. }
  rewrite (Permutation_length HP).
  unfold M; rewrite length_map; exact Hlen.
Qed.

Lemma count_spies_after (mafia_ids : list Z) (words : string * string) (rn : Z)
    (ps : list Player) :
  List.length (filter (fun p => is_true (is_mafia p))
                      (map (role_row mafia_ids words rn) ps))
  = List.length (filter (fun x => existsb (Z.eqb x) mafia_ids) (map id ps)).
Proof.
  induction ps as [| p ps IH]; simpl; [reflexivity |].
  destruct (existsb (Z.eqb (id p)) mafia_ids); simpl; rewrite IH; reflexivity.
Qed.

(** The state of room [c] after the sample and the assignment. *)
Lemma assignment_spec (db : DB) (c : string) (k : Z) (idx : list nat)
    (mafia_ids : list Z) (rn : Z) (reply : option (string * string))
    (a : DB * (string * string)) :
  NoDup (map id (players db)) ->
  valid_draw (player_ids db c) k idx ->
  random_sample (player_ids db c) k idx = Ok mafia_ids ->
  assign_words_and_roles db (player_ids db c) mafia_ids rn reply = Ok a ->
  roles_assigned (fst a) c k (fetch_words reply) rn /\
  map name (room_players (fst a) c) = map name (room_players db c).
Proof.
  intros Hnd Hdraw Hs Ha.
  rewrite (assign_words_and_roles_room _ _ _ _ _ _ Ha).
  unfold roles_assigned.
  rewrite (assign_words_and_roles_room _ _ _ _ _ _ Ha).
  assert (mafia_ids = map (fun i => nth i (player_ids db c) 0) idx) as ->.
  { unfold random_sample in Hs; destruct (_ || _); inversion Hs; reflexivity. }
  split; [split |].
  - rewrite count_spies_after.
    apply sample_marks_k; [| exact Hdraw].
    unfold player_ids, room_players; apply NoDup_map_filter; exact Hnd.
  - intros p Hin; apply in_map_iff in Hin; destruct Hin as [q [<- _]].
    unfold role_row; simpl.
    destruct (existsb _ _); auto.
  - rewrite map_map; reflexivity.
Qed.

Lemma random_sample_ok (population : list Z) (k : Z) (idx : list nat) :
  0 <= k <= Z.of_nat (List.length population) ->
  random_sample population k idx = Ok (map (fun i => nth i population 0) idx).
Proof.
  intro H; unfold random_sample.
  replace (k <? 0) with false by (symmetry; apply Z.ltb_ge; lia).
  replace (Z.of_nat (List.length population) <? k) with false
    by (symmetry; apply Z.ltb_ge; lia).
  reflexivity.
Qed.

Lemma is_host_self (db : DB) (c : string) (rm : Room) :
  find_room db c = Some rm -> is_host db c (host_name rm) = true.
Proof.
  intro H; unfold is_host; rewrite H; apply String.eqb_refl.
Qed.

(** The guards of start-round, spelled out. *)
Lemma start_round_ok (db : DB) (room_code_ : string) (idx : list nat)
    (reply : option (string * string)) (rm : Room) :
  find_room db (upper room_code_) = Some rm ->
  0 <= mafia_count rm <= Z.of_nat (List.length (room_players db (upper room_code_))) ->
  exists a,
    assign_words_and_roles db (player_ids db (upper room_code_))
      (map (fun i => nth i (player_ids db (upper room_code_)) 0) idx) 1 reply = Ok a /\
    start_round upper db room_code_ (host_name rm) idx reply
    = Ok (set_rooms (fst a) (open_discussion (fst a) (upper room_code_))).
Proof.
  intros Hf Hk.
  assert (List.length (player_ids db (upper room_code_))
          = List.length (room_players db (upper room_code_))) as Hlen
      by (unfold player_ids; apply length_map).
  unfold start_round.
  rewrite (is_host_self _ _ _ Hf), Hf; simpl.
  replace (Z.of_nat (List.length (player_ids db (upper room_code_))) <? mafia_count rm)
    with false by (symmetry; apply Z.ltb_ge; lia).
  rewrite random_sample_ok by lia; simpl.
  unfold assign_words_and_roles.
  destruct (fetch_words reply) as [cw sw]; simpl.
  eexists; split; reflexivity.
Qed.

(** The guards of next-round, spelled out; the round number has to fit
    the INT column. *)
Lemma next_round_ok (db : DB) (room_code_ : string) (idx : list nat)
    (reply : option (string * string)) (rm : Room) :
  find_room db (upper room_code_) = Some rm ->
  0 <= mafia_count rm <= Z.of_nat (List.length (room_players db (upper room_code_))) ->
  in_int4 (py_or (max_round db (upper room_code_)) 0 + 1) = true ->
  exists a,
    assign_words_and_roles db (player_ids db (upper room_code_))
      (map (fun i => nth i (player_ids db (upper room_code_)) 0) idx)
      (py_or (max_round db (upper room_code_)) 0 + 1) reply = Ok a /\
    next_round upper db room_code_ (host_name rm) idx reply
    = Ok (set_votes (set_rooms (fst a) (open_discussion (fst a) (upper room_code_)))
            (filter (fun v => negb (v_room_code v =s upper room_code_))
                    (votes (fst a)))).
Proof.
  intros Hf Hk Hrn.
  assert (List.length (player_ids db (upper room_code_))
          = List.length (room_players db (upper room_code_))) as Hlen
      by (unfold player_ids; apply length_map).
  unfold next_round.
  rewrite (is_host_self _ _ _ Hf), Hf; simpl.
  replace (Z.of_nat (List.length (player_ids db (upper room_code_))) <? mafia_count rm)
    with false by (symmetry; apply Z.ltb_ge; lia).
  rewrite random_sample_ok by lia; simpl.
  unfold assign_words_and_roles.
  destruct (fetch_words reply) as [cw sw]; rewrite Hrn; simpl.
  eexists; split; reflexivity.
Qed.

(** C7: start-round on a room with n players and mafia_count <= n, sent
    by the host, succeeds; afterwards exactly mafia_count players of the
    room are marked is_mafia, every spy holds the spy word and every
    other player the civilian word, and every player of the room has
    round 1 and eliminated = false.  The player ids are distinct (primary
    key) and [idx] is a sample that random.sample may draw. *)
Theorem start_round_assigns_roles (db : DB) (room_code_ : string) (idx : list nat)
    (reply : option (string * string)) (rm : Room) :
  NoDup (map id (players db)) ->
  find_room db (upper room_code_) = Some rm ->
  mafia_count rm <= Z.of_nat (List.length (room_players db (upper room_code_))) ->
  valid_draw (player_ids db (upper room_code_)) (mafia_count rm) idx ->
  exists db',
    start_round upper db room_code_ (host_name rm) idx reply = Ok db' /\
    roles_assigned db' (upper room_code_) (mafia_count rm) (fetch_words reply) 1 /\
    map name (room_players db' (upper room_code_))
    = map name (room_players db (upper room_code_)).
Proof.
  intros Hnd Hf Hk Hdraw.
  assert (0 <= mafia_count rm) as H0 by (destruct Hdraw as (_ & _ & <-); lia).
  destruct (start_round_ok db room_code_ idx reply rm Hf (conj H0 Hk)) as [a [Ha Hs]].
  exists (set_rooms (fst a) (open_discussion (fst a) (upper room_code_))).
  split; [exact Hs |].
  eapply (assignment_spec db (upper room_code_) (mafia_count rm) idx);
    [exact Hnd | exact Hdraw | | exact Ha].
  apply random_sample_ok.
  unfold player_ids; rewrite length_map; lia.
Qed.

(** Next-round assigns in the same way, with the round number it
    computes. *)
Lemma next_round_assigns_roles (db db' : DB) (room_code_ name_ : string)
    (idx : list nat) (reply : option (string * string)) (rm : Room) :
  NoDup (map id (players db)) ->
  find_room db (upper room_code_) = Some rm ->
  valid_draw (player_ids db (upper room_code_)) (mafia_count rm) idx ->
  next_round upper db room_code_ name_ idx reply = Ok db' ->
  roles_assigned db' (upper room_code_) (mafia_count rm) (fetch_words reply)
                 (py_or (max_round db (upper room_code_)) 0 + 1).
Proof.
  intros Hnd Hf Hdraw H.
  unfold next_round in H; rewrite Hf in H; break H.
  inversion H; subst.
  eapply (assignment_spec db (upper room_code_) (mafia_count rm) idx); eauto.
Qed.

Lemma fallback_room (db : DB) (c : string) (mafia_ids : list Z) (rn : Z)
    (a : DB * (string * string)) (p : Player) :
  assign_words_and_roles db (player_ids db c) mafia_ids rn None = Ok a ->
  In p (room_players (fst a) c) ->
  word p = Some (if is_true (is_mafia p) then "banana" else "apple").
Proof.
  intros Ha Hin.
  rewrite (assign_words_and_roles_room _ _ _ _ _ _ Ha) in Hin.
  apply in_map_iff in Hin; destruct Hin as [q [<- _]].
  unfold role_row; simpl.
  destruct (existsb _ _); reflexivity.
Qed.

(** C10: when the word request fails, the words are the fallback pair
    and the round starts all the same.  Start-round by the host of a room
    with 0 <= mafia_count <= n players succeeds and hands "banana" to the
    spies and "apple" to the others; so does next-round, whose round
    number has to fit the INT column. *)
Theorem word_failure_falls_back (db : DB) (room_code_ : string) (idx : list nat)
    (rm : Room) :
  find_room db (upper room_code_) = Some rm ->
  0 <= mafia_count rm <= Z.of_nat (List.length (room_players db (upper room_code_))) ->
  fetch_words None = ("apple", "banana") /\
  (exists db',
      start_round upper db room_code_ (host_name rm) idx None = Ok db' /\
      forall p, In p (room_players db' (upper room_code_)) ->
                word p = Some (if is_true (is_mafia p) then "banana" else "apple")) /\
  (in_int4 (py_or (max_round db (upper room_code_)) 0 + 1) = true ->
   exists db',
      next_round upper db room_code_ (host_name rm) idx None = Ok db' /\
      forall p, In p (room_players db' (upper room_code_)) ->
                word p = Some (if is_true (is_mafia p) then "banana" else "apple")).
Proof.
  intros Hf Hk; split; [reflexivity | split].
  - destruct (start_round_ok db room_code_ idx None rm Hf Hk) as [a [Ha Hs]].
    eexists; split; [exact Hs |].
    intros p Hin; eapply fallback_room; eauto.
  - intro Hrn.
    destruct (next_round_ok db room_code_ idx None rm Hf Hk Hrn) as [a [Ha Hs]].
    eexists; split; [exact Hs |].
    intros p Hin; eapply fallback_room; eauto.
Qed.

(** ** The primary key of [players] *)

Lemma add_point_ids (sel : Player -> bool) (ps ps' : list Player) :
  add_point sel ps = Ok ps' -> map id ps' = map id ps.
Proof.
  intro H; apply add_point_ok in H; subst ps'.
  rewrite map_map; apply map_ext; intro p.
  destruct (sel p); reflexivity.
Qed.

Lemma assign_words_and_roles_ids (db : DB) (ids mafia_ids : list Z) (rn : Z)
    (reply : option (string * string)) (a : DB * (string * string)) :
  assign_words_and_roles db ids mafia_ids rn reply = Ok a ->
  map id (players (fst a)) = map id (players db).
Proof.
  intro H; apply assign_words_and_roles_tables in H.
  destruct H as (_ & _ & _ & _ & ->).
  rewrite assign_loop, map_map; apply map_ext; intro p.
  destruct (existsb _ ids); reflexivity.
Qed.

Lemma insert_player_ids (db db' : DB) (new_id : Z) (c n : string) :
  insert_player db new_id c n = Some db' ->
  NoDup (map id (players db)) -> NoDup (map id (players db')).
Proof.
  intros H Hnd; apply insert_player_tables in H.
  destruct H as (_ & _ & _ & -> & Hfresh).
  rewrite map_app; simpl; apply NoDup_snoc; assumption.
Qed.

Lemma run_keeps_ids_unique (cmd : command) (db db' : DB) :
  run upper cmd db = Ok db' ->
  NoDup (map id (players db)) -> NoDup (map id (players db')).
Proof.
  destruct cmd; simpl; intros H Hnd.
  - unfold create_room in H; break H; inversion H; subst.
    eapply insert_player_ids; [exact Heqo | exact Hnd].
  - unfold join_room in H; break H; inversion H; subst.
    eapply insert_player_ids; eauto.
  - unfold start_round in H; break H; inversion H; subst; simpl.
    rewrite (assign_words_and_roles_ids _ _ _ _ _ _ E0); exact Hnd.
  - unfold start_voting in H; break H; inversion H; subst; exact Hnd.
  - unfold end_game in H; break H; inversion H; subst; simpl.
    apply NoDup_map_filter; exact Hnd.
  - unfold vote in H; break H.
    + unfold process_round_results in H; break H; inversion H; subst; simpl.
      rewrite (add_point_ids _ _ _ E); exact Hnd.
    + inversion H; subst; exact Hnd.
  - unfold end_round in H; break H; inversion H; subst; simpl.
    rewrite (add_point_ids _ _ _ E); exact Hnd.
  - unfold next_round in H; break H; inversion H; subst; simpl.
    rewrite (assign_words_and_roles_ids _ _ _ _ _ _ E0); exact Hnd.
Qed.

(** Every store the service can reach has distinct player ids. *)
Lemma reachable_ids_unique (db : DB) :
  reachable upper db -> NoDup (map id (players db)).
Proof.
  induction 1 as [| db cmd db' _ IH H]; [constructor |].
  eapply run_keeps_ids_unique; eauto.
Qed.

(** When one name has more votes than every other, the resolution does
    not depend on how a tie would be settled. *)
Lemma process_round_results_tie_free (db : DB) (c : string) (r : Z) (n : string)
    (tie tie' : nat) :
  top_groups (round_votes db c r) = [n] ->
  process_round_results db c r tie = process_round_results db c r tie'.
Proof.
  intro H; unfold process_round_results.
  rewrite !(top_voted_single _ _ _ H); reflexivity.
Qed.

Lemma end_round_tie_free (db : DB) (room_code_ n : string) (tie tie' : nat) :
  top_groups (round_votes db (upper room_code_) (current_round db (upper room_code_)))
  = [n] ->
  end_round upper db room_code_ tie = end_round upper db room_code_ tie'.
Proof.
  intro H; unfold end_round.
  rewrite !(top_voted_single _ _ _ H); reflexivity.
Qed.

End Properties.

(** * The properties on the concrete games *)

Lemma reachable_from_empty (cmds : list command) :
  reachable ascii_upper (run_all ascii_upper cmds empty_db).
Proof. apply reachable_run_all, reach_empty. Qed.

(** C1, as stated, fails: after the three votes have resolved round 1 of
    room ABCDEF, an end-round request resolves it again; the round has two
    RoundResult rows and Ann and Cara have been paid twice. *)
Lemma two_results_for_one_round :
  reachable ascii_upper (step ascii_upper resolved_store (EndRound "ABCDEF" 0%nat)) /\
  results_for resolved_store "ABCDEF" 1 = [mkResult "ABCDEF" 1 "Bob" (Some true)] /\
  scores resolved_store "ABCDEF" = [("Ann", 1); ("Bob", 0); ("Cara", 1)] /\
  results_for (step ascii_upper resolved_store (EndRound "ABCDEF" 0%nat)) "ABCDEF" 1
  = [mkResult "ABCDEF" 1 "Bob" (Some true); mkResult "ABCDEF" 1 "Bob" (Some true)] /\
  scores (step ascii_upper resolved_store (EndRound "ABCDEF" 0%nat)) "ABCDEF"
  = [("Ann", 2); ("Bob", 0); ("Cara", 2)].
Proof.
  split; [| repeat split; vm_compute; reflexivity].
  change (reachable ascii_upper
            (run_all ascii_upper (three_player_game ++ [EndRound "ABCDEF" 0%nat]) empty_db)).
  apply reachable_from_empty.
Qed.

Lemma resolution_adds_one_result_witness :
  (* a vote short of the quorum *)
  (run ascii_upper (CastVote "ABCDEF" "Bob" "Cara" 0%nat) two_votes_store = Ok revote_store /\
   (distinct_voters revote_store (ascii_upper "ABCDEF")
                    (current_round two_votes_store (ascii_upper "ABCDEF"))
    < List.length (room_players two_votes_store (ascii_upper "ABCDEF")))%nat /\
   players revote_store = players two_votes_store /\
   round_results revote_store = round_results two_votes_store) /\
  (* the vote that completes the quorum *)
  (run ascii_upper (CastVote "ABCDEF" "Cara" "Bob" 0%nat) two_votes_store
   = Ok resolved_store /\
   (List.length (room_players two_votes_store (ascii_upper "ABCDEF"))
    <= distinct_voters resolved_store (ascii_upper "ABCDEF")
         (current_round two_votes_store (ascii_upper "ABCDEF")))%nat /\
   (exists n m,
       round_results resolved_store
       = round_results two_votes_store
         ++ [mkResult (ascii_upper "ABCDEF")
                      (current_round two_votes_store (ascii_upper "ABCDEF")) n m]) /\
   Forall2 (fun p p' => score p <= score p' <= score p + 1)
           (players two_votes_store) (players resolved_store)) /\
  (* an end-round request *)
  (run ascii_upper (EndRound "ABCDEF" 0%nat) resolved_store
   = Ok (step ascii_upper resolved_store (EndRound "ABCDEF" 0%nat)) /\
   (exists n m,
       round_results (step ascii_upper resolved_store (EndRound "ABCDEF" 0%nat))
       = round_results resolved_store
         ++ [mkResult (ascii_upper "ABCDEF")
                      (current_round resolved_store (ascii_upper "ABCDEF")) n m]) /\
   Forall2 (fun p p' => score p <= score p' <= score p + 1)
           (players resolved_store)
           (players (step ascii_upper resolved_store (EndRound "ABCDEF" 0%nat)))).
Proof.
  assert (run ascii_upper (CastVote "ABCDEF" "Bob" "Cara" 0%nat) two_votes_store
          = Ok revote_store) as H1 by (vm_compute; reflexivity).
  assert (distinct_voters revote_store (ascii_upper "ABCDEF")
                          (current_round two_votes_store (ascii_upper "ABCDEF"))
          < List.length (room_players two_votes_store (ascii_upper "ABCDEF")))%nat as Q1
      by (vm_compute; lia).
  assert (run ascii_upper (CastVote "ABCDEF" "Cara" "Bob" 0%nat) two_votes_store
          = Ok resolved_store) as H2 by (vm_compute; reflexivity).
  assert (List.length (room_players two_votes_store (ascii_upper "ABCDEF"))
          <= distinct_voters resolved_store (ascii_upper "ABCDEF")
               (current_round two_votes_store (ascii_upper "ABCDEF")))%nat as Q2
      by (vm_compute; lia).
  assert (run ascii_upper (EndRound "ABCDEF" 0%nat) resolved_store
          = Ok (step ascii_upper resolved_store (EndRound "ABCDEF" 0%nat))) as H3
      by (vm_compute; reflexivity).
  split; [| split].
  - split; [exact H1 | split; [exact Q1 |]].
    exact (proj1 (resolution_adds_one_result ascii_upper two_votes_store revote_store
                    (CastVote "ABCDEF" "Bob" "Cara" 0%nat) "ABCDEF" 0%nat H1
                    (or_intror (ex_intro _ "Bob" (ex_intro _ "Cara" eq_refl))))
                 (ex_intro _ "Bob" (ex_intro _ "Cara" eq_refl)) Q1).
  - split; [exact H2 | split; [exact Q2 |]].
    exact (proj2 (resolution_adds_one_result ascii_upper two_votes_store resolved_store
                    (CastVote "ABCDEF" "Cara" "Bob" 0%nat) "ABCDEF" 0%nat H2
                    (or_intror (ex_intro _ "Cara" (ex_intro _ "Bob" eq_refl))))
                 (or_intror Q2)).
  - split; [exact H3 |].
    exact (proj2 (resolution_adds_one_result ascii_upper resolved_store
                    (step ascii_upper resolved_store (EndRound "ABCDEF" 0%nat))
                    (EndRound "ABCDEF" 0%nat) "ABCDEF" 0%nat H3 (or_introl eq_refl))
                 (or_introl eq_refl)).
Defined.

Lemma vote_is_upsert_witness :
  vote ascii_upper two_votes_store "ABCDEF" "Bob" "Cara" 0%nat = Ok revote_store /\
  votes two_votes_store
  = [mkVote "ABCDEF" 1 "Ann" "Bob"; mkVote "ABCDEF" 1 "Bob" "Bob"] /\
  votes revote_store
  = [mkVote "ABCDEF" 1 "Ann" "Bob"; mkVote "ABCDEF" 1 "Bob" "Cara"] /\
  (NoDup (map vote_key (votes revote_store)) /\
   forall old,
     In (mkVote (ascii_upper "ABCDEF")
                (current_round two_votes_store (ascii_upper "ABCDEF")) "Bob" old)
        (votes two_votes_store) ->
     (exists l1 l2,
         votes two_votes_store
         = l1 ++ mkVote (ascii_upper "ABCDEF")
                        (current_round two_votes_store (ascii_upper "ABCDEF"))
                        "Bob" old :: l2 /\
         votes revote_store
         = l1 ++ mkVote (ascii_upper "ABCDEF")
                        (current_round two_votes_store (ascii_upper "ABCDEF"))
                        "Bob" "Cara" :: l2) /\
     List.length (votes revote_store) = List.length (votes two_votes_store) /\
     distinct_voters revote_store (ascii_upper "ABCDEF")
                     (current_round two_votes_store (ascii_upper "ABCDEF"))
     = distinct_voters two_votes_store (ascii_upper "ABCDEF")
                       (current_round two_votes_store (ascii_upper "ABCDEF"))).
Proof.
  assert (vote ascii_upper two_votes_store "ABCDEF" "Bob" "Cara" 0%nat = Ok revote_store)
    as Hv by (vm_compute; reflexivity).
  split; [exact Hv |].
  split; [vm_compute; reflexivity |].
  split; [vm_compute; reflexivity |].
  exact (vote_is_upsert ascii_upper two_votes_store revote_store "ABCDEF" "Bob" "Cara"
           0%nat (reachable_from_empty (firstn 7 three_player_game)) Hv).
Defined.

(** C6, as stated, fails: once the third vote has resolved the round,
    room ABCDEF has status 'ended' and current_phase 'voting'. *)
Lemma ended_room_still_voting :
  reachable ascii_upper resolved_store /\
  rooms resolved_store = [mkRoom "ABCDEF" 1 "Ann" ended voting] /\
  ~ (status (mkRoom "ABCDEF" 1 "Ann" ended voting) = ongoing <->
     current_phase (mkRoom "ABCDEF" 1 "Ann" ended voting) = discussion \/
     current_phase (mkRoom "ABCDEF" 1 "Ann" ended voting) = voting).
Proof.
  split; [apply reachable_from_empty | split; [vm_compute; reflexivity |]].
  simpl; intros [_ H].
  assert (ended = ongoing) as E by (apply H; right; reflexivity).
  discriminate E.
Qed.

Lemma civilian_eliminated_scoring_witness :
  end_round ascii_upper votes_on_cara_store "ABCDEF" 0%nat
  = Ok (step ascii_upper votes_on_cara_store (EndRound "ABCDEF" 0%nat)) /\
  scores votes_on_cara_store "ABCDEF" = [("Ann", 0); ("Bob", 0); ("Cara", 0)] /\
  scores (step ascii_upper votes_on_cara_store (EndRound "ABCDEF" 0%nat)) "ABCDEF"
  = [("Ann", 0); ("Bob", 1); ("Cara", 0)] /\
  Forall2 (fun p p' =>
             p' = set_score p (score p') /\
             (room_code p = "ABCDEF" /\ is_mafia p = Some true /\
              count_for (name p) (round_votes votes_on_cara_store "ABCDEF" 1) = 0%nat ->
              score p' = score p + 1) /\
             (~ (room_code p = "ABCDEF" /\ is_mafia p = Some true /\
                 count_for (name p) (round_votes votes_on_cara_store "ABCDEF" 1) = 0%nat) ->
              score p' = score p))
          (players votes_on_cara_store)
          (players (step ascii_upper votes_on_cara_store (EndRound "ABCDEF" 0%nat))).
Proof.
  assert (end_round ascii_upper votes_on_cara_store "ABCDEF" 0%nat
          = Ok (step ascii_upper votes_on_cara_store (EndRound "ABCDEF" 0%nat))) as He
      by (vm_compute; reflexivity).
  split; [exact He |].
  split; [vm_compute; reflexivity |].
  split; [vm_compute; reflexivity |].
  apply (civilian_eliminated_scoring ascii_upper votes_on_cara_store _ "ABCDEF" 1 "Cara"
           (mkPlayer 3 "ABCDEF" "Cara" (Some false) false (Some "apple") 0 1) 0%nat).
  - right; exists "ABCDEF".
    split; [reflexivity | split; [vm_compute; reflexivity | exact He]].
  - vm_compute; reflexivity.
  - vm_compute; reflexivity.
  - simpl; discriminate.
Defined.

Lemma start_round_assigns_roles_witness :
  find_room lobby_store (ascii_upper "abcdef")
  = Some (mkRoom "ABCDEF" 1 "Ann" waiting no_phase) /\
  map name (room_players lobby_store (ascii_upper "abcdef")) = ["Ann"; "Bob"; "Cara"] /\
  valid_draw (player_ids lobby_store (ascii_upper "abcdef"))
             (mafia_count (mkRoom "ABCDEF" 1 "Ann" waiting no_phase)) [1%nat] /\
  exists db',
    start_round ascii_upper lobby_store "abcdef"
                (host_name (mkRoom "ABCDEF" 1 "Ann" waiting no_phase)) [1%nat]
                (Some ("cat", "dog")) = Ok db' /\
    roles_assigned db' (ascii_upper "abcdef")
                   (mafia_count (mkRoom "ABCDEF" 1 "Ann" waiting no_phase))
                   (fetch_words (Some ("cat", "dog"))) 1 /\
    map name (room_players db' (ascii_upper "abcdef"))
    = map name (room_players lobby_store (ascii_upper "abcdef")).
Proof.
  assert (find_room lobby_store (ascii_upper "abcdef")
          = Some (mkRoom "ABCDEF" 1 "Ann" waiting no_phase)) as Hf
      by (vm_compute; reflexivity).
  assert (valid_draw (player_ids lobby_store (ascii_upper "abcdef"))
                     (mafia_count (mkRoom "ABCDEF" 1 "Ann" waiting no_phase))
                     [1%nat]) as Hd.
  { split; [| split].
    - constructor; [intros [] | constructor].
    - constructor; [vm_compute; lia | constructor].
    - reflexivity. }
  split; [exact Hf |].
  split; [vm_compute; reflexivity |].
  split; [exact Hd |].
  apply (start_round_assigns_roles ascii_upper lobby_store "abcdef" [1%nat]
           (Some ("cat", "dog")) (mkRoom "ABCDEF" 1 "Ann" waiting no_phase)).
  - exact (reachable_ids_unique ascii_upper lobby_store
             (reachable_from_empty (firstn 3 three_player_game))).
  - exact Hf.
  - vm_compute; discriminate.
  - exact Hd.
Defined.

(** C8, as stated, fails for end-round: the request names no caller, and
    on the room that Ann hosts it is served for whoever sends it. *)
Lemma end_round_by_anyone :
  find_room two_spy_store "ABCDEF" = Some (mkRoom "ABCDEF" 2 "Ann" ongoing voting) /\
  host_gated (EndRound "ABCDEF" 0%nat) = None /\
  round_results two_spy_store = [] /\
  exists db',
    run ascii_upper (EndRound "ABCDEF" 0%nat) two_spy_store = Ok db' /\
    round_results db' = [mkResult "ABCDEF" 1 "Ann" (Some true)] /\
    rooms db' = [mkRoom "ABCDEF" 2 "Ann" ended voting].
Proof.
  split; [vm_compute; reflexivity |].
  split; [reflexivity |].
  split; [vm_compute; reflexivity |].
  eexists; split; [vm_compute; reflexivity |].
  split; reflexivity.
Qed.

Lemma non_host_is_forbidden_witness :
  find_room two_spy_store (ascii_upper "ABCDEF")
  = Some (mkRoom "ABCDEF" 2 "Ann" ongoing voting) /\
  run ascii_upper (NextRound "ABCDEF" "Bob" [0%nat; 1%nat] None) two_spy_store
  = Err Forbidden /\
  step ascii_upper two_spy_store (NextRound "ABCDEF" "Bob" [0%nat; 1%nat] None)
  = two_spy_store.
Proof.
  assert (find_room two_spy_store (ascii_upper "ABCDEF")
          = Some (mkRoom "ABCDEF" 2 "Ann" ongoing voting)) as Hf
      by (vm_compute; reflexivity).
  split; [exact Hf |].
  apply (non_host_is_forbidden ascii_upper
           (NextRound "ABCDEF" "Bob" [0%nat; 1%nat] None) two_spy_store
           "ABCDEF" "Bob" (mkRoom "ABCDEF" 2 "Ann" ongoing voting)).
  - reflexivity.
  - exact Hf.
  - simpl; discriminate.
Defined.

Lemma word_failure_falls_back_witness :
  find_room lobby_store (ascii_upper "ABCDEF") = Some (mkRoom "ABCDEF" 1 "Ann" waiting no_phase) /\
  fetch_words None = ("apple", "banana") /\
  (exists db',
      start_round ascii_upper lobby_store "ABCDEF" "Ann" [1%nat] None = Ok db' /\
      forall p, In p (room_players db' (ascii_upper "ABCDEF")) ->
                word p = Some (if is_true (is_mafia p) then "banana" else "apple")) /\
  (in_int4 (py_or (max_round lobby_store (ascii_upper "ABCDEF")) 0 + 1) = true ->
   exists db',
      next_round ascii_upper lobby_store "ABCDEF" "Ann" [1%nat] None = Ok db' /\
      forall p, In p (room_players db' (ascii_upper "ABCDEF")) ->
                word p = Some (if is_true (is_mafia p) then "banana" else "apple")).
Proof.
  assert (find_room lobby_store (ascii_upper "ABCDEF")
          = Some (mkRoom "ABCDEF" 1 "Ann" waiting no_phase)) as Hf
      by (vm_compute; reflexivity).
  split; [exact Hf |].
  apply (word_failure_falls_back ascii_upper lobby_store "ABCDEF" [1%nat]
           (mkRoom "ABCDEF" 1 "Ann" waiting no_phase)).
  - exact Hf.
  - vm_compute; split; discriminate.
Defined.

(** C3: the end-round path pays only the civilians who voted for the
    eliminated spy.  In the two-spy room Ann (a spy) is eliminated on the
    votes of Cara and Dan; Eve, a civilian who voted for the other spy Bob,
    is a voter for a spy of the round and ends with the score she had. *)
Theorem end_round_skips_voter_of_other_spy (tie : nat) :
  top_voted tie (round_votes two_spy_store "ABCDEF" 1) = Some "Ann" /\
  find_player two_spy_store "ABCDEF" "Ann"
  = Some (mkPlayer 1 "ABCDEF" "Ann" (Some true) false (Some "banana") 0 1) /\
  voted_for_a_spy two_spy_store "ABCDEF" 1
    (mkPlayer 5 "ABCDEF" "Eve" (Some false) false (Some "apple") 0 1) /\
  scores two_spy_store "ABCDEF"
  = [("Ann", 0); ("Bob", 0); ("Cara", 0); ("Dan", 0); ("Eve", 0)] /\
  exists db',
    end_round ascii_upper two_spy_store "ABCDEF" tie = Ok db' /\
    scores db' "ABCDEF"
    = [("Ann", 0); ("Bob", 0); ("Cara", 1); ("Dan", 1); ("Eve", 0)].
Proof.
  split; [apply top_voted_single; vm_compute; reflexivity |].
  split; [vm_compute; reflexivity |].
  split; [apply civilian_on_spy_spec; vm_compute; reflexivity |].
  split; [vm_compute; reflexivity |].
  rewrite (end_round_tie_free ascii_upper two_spy_store "ABCDEF" "Ann" tie 0%nat)
    by (vm_compute; reflexivity).
  eexists; split; vm_compute; reflexivity.
Qed.

(** C5: on the two-spy room the two paths of the resolution eliminate the
    same player and differ in the scores: the quorum path pays Eve, the
    end-round path does not. *)
Theorem resolution_paths_differ (tie tie' : nat) :
  exists db1 db2,
    process_round_results two_spy_store (ascii_upper "ABCDEF")
                          (current_round two_spy_store (ascii_upper "ABCDEF")) tie
    = Ok db1 /\
    end_round ascii_upper two_spy_store "ABCDEF" tie' = Ok db2 /\
    round_results db1 = round_results db2 /\
    scores db1 "ABCDEF" = [("Ann", 0); ("Bob", 0); ("Cara", 1); ("Dan", 1); ("Eve", 1)] /\
    scores db2 "ABCDEF" = [("Ann", 0); ("Bob", 0); ("Cara", 1); ("Dan", 1); ("Eve", 0)].
Proof.
  rewrite (process_round_results_tie_free two_spy_store (ascii_upper "ABCDEF")
             (current_round two_spy_store (ascii_upper "ABCDEF")) "Ann" tie 0%nat)
    by (vm_compute; reflexivity).
  rewrite (end_round_tie_free ascii_upper two_spy_store "ABCDEF" "Ann" tie' 0%nat)
    by (vm_compute; reflexivity).
  eexists; eexists.
  split; [vm_compute; reflexivity |].
  split; [vm_compute; reflexivity |].
  split; [reflexivity | split; reflexivity].
Qed.

(** C9: on a store without room ZZZZZZ the four host-checked requests are
    refused with Forbidden (403), not with NotFound (404): the host check
    comes first and fails on the missing room. *)
Theorem missing_room_gets_forbidden :
  find_room empty_db (ascii_upper "ZZZZZZ") = None /\
  start_round ascii_upper empty_db "ZZZZZZ" "Ann" [] None = Err Forbidden /\
  start_voting ascii_upper empty_db "ZZZZZZ" "Ann" = Err Forbidden /\
  next_round ascii_upper empty_db "ZZZZZZ" "Ann" [] None = Err Forbidden /\
  end_game ascii_upper empty_db "ZZZZZZ" "Ann" = Err Forbidden.
Proof.
  assert (find_room empty_db (ascii_upper "ZZZZZZ") = None) as Hf by reflexivity.
  split; [exact Hf |].
  split; [| split; [| split]].
  - exact (missing_room_is_forbidden ascii_upper (StartRound "ZZZZZZ" "Ann" [] None)
             empty_db "ZZZZZZ" "Ann" eq_refl Hf).
  - exact (missing_room_is_forbidden ascii_upper (StartVoting "ZZZZZZ" "Ann")
             empty_db "ZZZZZZ" "Ann" eq_refl Hf).
  - exact (missing_room_is_forbidden ascii_upper (NextRound "ZZZZZZ" "Ann" [] None)
             empty_db "ZZZZZZ" "Ann" eq_refl Hf).
  - exact (missing_room_is_forbidden ascii_upper (EndGame "ZZZZZZ" "Ann")
             empty_db "ZZZZZZ" "Ann" eq_refl Hf).
Qed.

(** * Further properties of the handlers *)

Section Further.

Variable upper : string -> string.

(** ** Room codes *)

Lemma code_taken_spec (db : DB) (c : string) :
  existsb (fun rm => code rm =s c) (rooms db) = true <-> In c (map code (rooms db)).
Proof.
  rewrite existsb_exists, in_map_iff; split.
  - intros [rm [Hin E]]; apply String.eqb_eq in E; eauto.
  - intros [rm [E Hin]]; exists rm; split; [exact Hin | apply String.eqb_eq; exact E].
Qed.

Lemma find_room_none (db : DB) (c : string) :
  find_room db c = None <-> ~ In c (map code (rooms db)).
Proof.
  unfold find_room; split.
  - intros H Hin; apply in_map_iff in Hin; destruct Hin as [rm [E Hin]].
    apply (find_none _ _ H) in Hin; rewrite E, String.eqb_refl in Hin; discriminate.
  - intro H; destruct (find _ (rooms db)) as [rm |] eqn:E; [| reflexivity].
    apply find_some in E; destruct E as [Hin E]; apply String.eqb_eq in E.
    exfalso; apply H; apply in_map_iff; eauto.
Qed.

Lemma generate_unique_room_code_cases (db : DB) (draws : nat -> string) :
  (forall c, generate_unique_room_code db draws = Ok c ->
             (exists i, (i < 10)%nat /\ draws i = c) /\ find_room db c = None) /\
  (forall e, generate_unique_room_code db draws = Err e ->
             e = ServerError /\
             forall i, (i < 10)%nat -> In (draws i) (map code (rooms db))) /\
  ((exists i, (i < 10)%nat /\ ~ In (draws i) (map code (rooms db))) ->
   exists c, generate_unique_room_code db draws = Ok c).
Proof.
  unfold generate_unique_room_code.
  destruct (find _ (map draws (seq 0 10))) as [c |] eqn:E.
  - apply find_some in E; destruct E as [Hin Hfree].
    apply in_map_iff in Hin; destruct Hin as [i [Hi Hin]].
    apply in_seq in Hin.
    apply negb_true_iff in Hfree.
    split; [| split].
    + intros c' H; inversion H; subst c'; split.
      * exists i; split; [lia | exact Hi].
      * apply find_room_none; intro Hc; apply code_taken_spec in Hc; congruence.
    + intros e H; discriminate H.
    + intros _; eauto.
  - split; [| split].
    + intros c H; discriminate H.
    + intros e H; inversion H; split; [reflexivity |].
      intros i Hi.
      assert (In (draws i) (map draws (seq 0 10))) as Hin
          by (apply in_map, in_seq; lia).
      apply (find_none _ _ E) in Hin.
      apply negb_false_iff in Hin; apply code_taken_spec; exact Hin.
    + intros [i [Hi Hfree]]; exfalso; apply Hfree.
      assert (In (draws i) (map draws (seq 0 10))) as Hin
          by (apply in_map, in_seq; lia).
      apply (find_none _ _ E) in Hin.
      apply negb_false_iff in Hin; apply code_taken_spec; exact Hin.
Qed.

(** X1: the code generator answers with one of its ten draws, one that
    names no room; it gives up with a 500 only when all ten draws are
    taken, and answers whenever one of them is free. *)
Theorem generate_unique_room_code_spec (db : DB) (draws : nat -> string) :
  (forall c, generate_unique_room_code db draws = Ok c ->
             (exists i, (i < 10)%nat /\ draws i = c) /\ find_room db c = None) /\
  (forall e, generate_unique_room_code db draws = Err e ->
             e = ServerError /\
             forall i, (i < 10)%nat -> In (draws i) (map code (rooms db))) /\
  ((exists i, (i < 10)%nat /\ ~ In (draws i) (map code (rooms db))) ->
   exists c, generate_unique_room_code db draws = Ok c).
Proof.
  exact (generate_unique_room_code_cases db draws).
Qed.

(** ** How a request changes the rooms and the players *)

Ltac break_ok H :=
  repeat match type of H with
    | Err _ = Ok _ => discriminate H
    | bind _ _ = Ok _ =>
        let a := fresh "a" in
        let E := fresh "E" in
        apply bind_ok in H; destruct H as [a [E H]]
    | (if ?b then _ else _) = Ok _ => destruct b eqn:?
    | match ?x with _ => _ end = Ok _ => destruct x eqn:?
    end.

(** A request adds one waiting room under a fresh code, or rewrites rooms
    keeping code, host and spy count (and never makes a room waiting), or
    deletes rooms. *)
Lemma run_rooms (cmd : command) (db db' : DB) :
  run upper cmd db = Ok db' ->
  (exists rm, rooms db' = rooms db ++ [rm] /\ status rm = waiting /\
              current_phase rm = no_phase /\ ~ In (code rm) (map code (rooms db)))
  \/
  (exists f, rooms db' = map f (rooms db) /\
             forall rm, code (f rm) = code rm /\ host_name (f rm) = host_name rm /\
                        mafia_count (f rm) = mafia_count rm /\
                        (status (f rm) = waiting -> status rm = waiting))
  \/
  (exists g, rooms db' = filter g (rooms db)).
Proof.
  assert (forall rs : list Room,
             exists f, rs = map f rs /\
                       forall rm, code (f rm) = code rm /\ host_name (f rm) = host_name rm /\
                                  mafia_count (f rm) = mafia_count rm /\
                                  (status (f rm) = waiting -> status rm = waiting)) as Hid.
  { intro rs; exists (fun rm => rm); split; [symmetry; apply map_id | auto]. }
  destruct cmd; simpl; intro H.
  - unfold create_room in H; break_ok H.
    apply insert_player_tables in Heqo; destruct Heqo as (Hr & _).
    inversion H; subst; left; eexists; split; [exact Hr |]; simpl.
    split; [reflexivity | split; [reflexivity |]].
    destruct (generate_unique_room_code_cases db draws) as [Hok _].
    destruct (Hok _ Heqr) as [_ Hnone].
    apply find_room_none; exact Hnone.
  - unfold join_room in H; break_ok H.
    apply insert_player_tables in Heqo0; destruct Heqo0 as (Hr & _).
    inversion H; subst; right; left; rewrite Hr; apply Hid.
  - unfold start_round in H; break_ok H.
    apply assign_words_and_roles_tables in E0; destruct E0 as (Hr & _).
    inversion H; subst; simpl; right; left.
    unfold open_discussion; rewrite Hr; eexists; split; [reflexivity |].
    intro rm; cbv beta; destruct (code rm =s upper room_code_); simpl; auto.
    repeat split; discriminate.
  - unfold start_voting in H; break_ok H; inversion H; subst; simpl; right; left.
    unfold open_voting; eexists; split; [reflexivity |].
    intro rm; cbv beta; destruct (code rm =s upper room_code_); simpl; auto.
  - unfold end_game in H; break_ok H; inversion H; subst; simpl.
    right; right; eexists; reflexivity.
  - unfold vote in H; break_ok H.
    + apply process_round_results_rooms in H; right; left.
      rewrite H; unfold end_status; simpl; eexists; split; [reflexivity |].
      intro rm; cbv beta; destruct (code rm =s upper room_code_); simpl; auto.
      repeat split; discriminate.
    + inversion H; subst; simpl; right; left; apply Hid.
  - unfold end_round in H; break_ok H; inversion H; subst; simpl; right; left.
    unfold end_status; eexists; split; [reflexivity |].
    intro rm; cbv beta; destruct (code rm =s upper room_code_); simpl; auto.
    repeat split; discriminate.
  - unfold next_round in H; break_ok H.
    apply assign_words_and_roles_tables in E0; destruct E0 as (Hr & _).
    inversion H; subst; simpl; right; left.
    unfold open_discussion; rewrite Hr; eexists; split; [reflexivity |].
    intro rm; cbv beta; destruct (code rm =s upper room_code_); simpl; auto.
    repeat split; discriminate.
Qed.

Lemma insert_player_spec (db db' : DB) (new_id : Z) (c n : string) :
  insert_player db new_id c n = Some db' <->
  db' = set_players db (players db ++ [new_player new_id c n]) /\
  ~ In new_id (map id (players db)) /\
  ~ In (c, n) (map player_key (players db)).
Proof.
  unfold insert_player, new_player.
  destruct (existsb _ (players db)) eqn:E.
  - split; [discriminate |].
    intros (_ & Hid & Hkey); exfalso.
    apply existsb_exists in E; destruct E as [p [Hin E]].
    apply orb_true_iff in E; destruct E as [E | E].
    + apply Z.eqb_eq in E; apply Hid; rewrite <- E; apply in_map; exact Hin.
    + apply andb_true_iff in E; destruct E as [E1 E2].
      apply String.eqb_eq in E1, E2; apply Hkey.
      apply in_map_iff; exists p; unfold player_key; split; [congruence | exact Hin].
  - split.
    + intro H; inversion H; split; [reflexivity | split]; intro Hin;
        apply in_map_iff in Hin; destruct Hin as [p [Hp Hin]].
      * destruct (In_nth _ _ p Hin) as [i [Hi Hn]].
        pose proof (existsb_nth _ _ p Hi E) as F; rewrite Hn, Hp, Z.eqb_refl in F.
        discriminate F.
      * destruct (In_nth _ _ p Hin) as [i [Hi Hn]].
        pose proof (existsb_nth _ _ p Hi E) as F; rewrite Hn in F.
        unfold player_key in Hp; inversion Hp; subst.
        rewrite !String.eqb_refl, orb_true_r in F; discriminate F.
    + intros (-> & _); reflexivity.
Qed.

Lemma find_room_in (db : DB) (c : string) (rm : Room) :
  find_room db c = Some rm -> In rm (rooms db) /\ code rm = c.
Proof.
  unfold find_room; intro H; apply find_some in H.
  destruct H as [Hin E]; apply String.eqb_eq in E; auto.
Qed.

(** A request adds one player without role, word or points under a fresh
    id and a fresh name of an existing room, or rewrites players keeping
    id, room and name and adding at most one point, or deletes players. *)
Lemma run_players (cmd : command) (db db' : DB) :
  run upper cmd db = Ok db' ->
  (exists p, players db' = players db ++ [p] /\
             score p = 0 /\ is_mafia p = None /\ word p = None /\
             ~ In (id p) (map id (players db)) /\
             ~ In (player_key p) (map player_key (players db)) /\
             In (room_code p) (map code (rooms db')))
  \/
  (exists f, players db' = map f (players db) /\
             forall p, id (f p) = id p /\ room_code (f p) = room_code p /\
                       name (f p) = name p /\ score p <= score (f p) <= score p + 1)
  \/
  (exists g, players db' = filter g (players db)).
Proof.
  assert (forall ps : list Player,
             exists f, ps = map f ps /\
                       forall p, id (f p) = id p /\ room_code (f p) = room_code p /\
                                 name (f p) = name p /\
                                 score p <= score (f p) <= score p + 1) as Hid.
  { intro ps; exists (fun p => p); split; [symmetry; apply map_id |].
    intro p; repeat split; lia. }
  assert (forall sel (ps ps' : list Player), add_point sel ps = Ok ps' ->
             exists f, ps' = map f ps /\
                       forall p, id (f p) = id p /\ room_code (f p) = room_code p /\
                                 name (f p) = name p /\
                                 score p <= score (f p) <= score p + 1) as Hadd.
  { intros sel ps ps' H; apply add_point_ok in H; subst ps'.
    eexists; split; [reflexivity |].
    intro p; cbv beta; destruct (sel p); simpl; repeat split; lia. }
  assert (forall ids mafia_ids rn reply a,
             assign_words_and_roles db ids mafia_ids rn reply = Ok a ->
             exists f, players (fst a) = map f (players db) /\
                       forall p, id (f p) = id p /\ room_code (f p) = room_code p /\
                                 name (f p) = name p /\
                                 score p <= score (f p) <= score p + 1) as Hassign.
  { intros ids mafia_ids rn reply a H.
    apply assign_words_and_roles_tables in H; destruct H as (_ & _ & _ & _ & ->).
    rewrite assign_loop; eexists; split; [reflexivity |].
    intro p; cbv beta; destruct (existsb _ ids); simpl; repeat split; lia. }
  destruct cmd; simpl; intro H.
  - unfold create_room in H; break_ok H; inversion H; subst.
    apply insert_player_spec in Heqo; destruct Heqo as (-> & Hi & Hk).
    left; eexists; split; [simpl; reflexivity |]; simpl.
    repeat split; auto.
    rewrite map_app; apply in_or_app; right; left; reflexivity.
  - unfold join_room in H; break_ok H; inversion H; subst.
    apply insert_player_spec in Heqo0; destruct Heqo0 as (-> & Hi & Hk).
    left; exists (new_player new_id (upper room_code_) name_); simpl.
    repeat split; auto.
    apply find_room_in in Heqo; destruct Heqo as [Hin <-].
    apply in_map; exact Hin.
  - unfold start_round in H; break_ok H; inversion H; subst; simpl.
    right; left; eapply Hassign; eauto.
  - unfold start_voting in H; break_ok H; inversion H; subst; simpl.
    right; left; apply Hid.
  - unfold end_game in H; break_ok H; inversion H; subst; simpl.
    right; right; eexists; reflexivity.
  - unfold vote in H; break_ok H.
    + unfold process_round_results in H; break_ok H; inversion H; subst; simpl.
      right; left; eapply Hadd; eauto.
    + inversion H; subst; simpl; right; left; apply Hid.
  - unfold end_round in H; break_ok H; inversion H; subst; simpl.
    right; left; eapply Hadd; eauto.
  - unfold next_round in H; break_ok H; inversion H; subst; simpl.
    right; left; eapply Hassign; eauto.
Qed.

(** ** Keys *)

Lemma map_map_key {A B : Type} (k : A -> B) (f : A -> A) (l : list A) :
  (forall a, k (f a) = k a) -> map k (map f l) = map k l.
Proof.
  intro H; rewrite map_map; apply map_ext; exact H.
Qed.

(** X2: in every store the service can reach, no two rooms share a code,
    no two players share an id, and no two players of a room share a
    name. *)
Theorem reachable_keys_unique (db : DB) :
  reachable upper db ->
  NoDup (map code (rooms db)) /\
  NoDup (map id (players db)) /\
  NoDup (map player_key (players db)).
Proof.
  induction 1 as [| db cmd db' _ [IHr [IHi IHk]] H];
    [simpl; repeat split; constructor |].
  split; [| split].
  - destruct (run_rooms _ _ _ H)
      as [(rm & E & _ & _ & Hfresh) | [(f & E & Hf) | (g & E)]]; rewrite E.
    + rewrite map_app; apply NoDup_snoc; assumption.
    + rewrite map_map_key; [exact IHr | intro rm; apply Hf].
    + apply NoDup_map_filter; exact IHr.
  - destruct (run_players _ _ _ H)
      as [(p & E & _ & _ & _ & Hfresh & _) | [(f & E & Hf) | (g & E)]]; rewrite E.
    + rewrite map_app; apply NoDup_snoc; assumption.
    + rewrite map_map_key; [exact IHi | intro p; apply Hf].
    + apply NoDup_map_filter; exact IHi.
  - destruct (run_players _ _ _ H)
      as [(p & E & _ & _ & _ & _ & Hfresh & _) | [(f & E & Hf) | (g & E)]]; rewrite E.
    + rewrite map_app; apply NoDup_snoc; assumption.
    + rewrite map_map_key; [exact IHk |].
      intro p; unfold player_key; destruct (Hf p) as (_ & -> & -> & _); reflexivity.
    + apply NoDup_map_filter; exact IHk.
Qed.

(** X3: after a successful request every room either was there before
    under the same code, with the same host and the same spy count, and is
    waiting only if it was waiting, or is a new room under a code that was
    free, waiting and without phase.  No request changes the host of a
    room or puts a room back to waiting. *)
Theorem rooms_keep_host (cmd : command) (db db' : DB) (rm' : Room) :
  run upper cmd db = Ok db' ->
  In rm' (rooms db') ->
  (exists rm, In rm (rooms db) /\ code rm = code rm' /\
              host_name rm = host_name rm' /\ mafia_count rm = mafia_count rm' /\
              (status rm' = waiting -> status rm = waiting))
  \/
  (~ In (code rm') (map code (rooms db)) /\ status rm' = waiting /\
   current_phase rm' = no_phase).
Proof.
  intros H Hin.
  destruct (run_rooms _ _ _ H)
    as [(rm & E & Hs & Hp & Hfresh) | [(f & E & Hf) | (g & E)]]; rewrite E in Hin.
  - apply in_app_or in Hin; destruct Hin as [Hin | [<- | []]].
    + left; exists rm'; auto.
    + right; auto.
  - apply in_map_iff in Hin; destruct Hin as [rm [<- Hin]].
    left; exists rm; destruct (Hf rm) as (Hc & Hh & Hm & Hw); auto.
  - apply filter_In in Hin; destruct Hin as [Hin _].
    left; exists rm'; auto.
Qed.

(** X4: after a successful request every player either was there before
    under the same id, room and name, with a score that is the old one or
    one point more, or is a new player under an id that was free, with
    score 0 and neither role nor word.  No request lowers a score. *)
Theorem scores_only_grow (cmd : command) (db db' : DB) (p' : Player) :
  run upper cmd db = Ok db' ->
  In p' (players db') ->
  (exists p, In p (players db) /\ id p = id p' /\ room_code p = room_code p' /\
             name p = name p' /\ score p <= score p' <= score p + 1)
  \/
  (~ In (id p') (map id (players db)) /\ score p' = 0 /\
   is_mafia p' = None /\ word p' = None).
Proof.
  intros H Hin.
  destruct (run_players _ _ _ H)
    as [(p & E & Hs & Hm & Hw & Hfresh & _) | [(f & E & Hf) | (g & E)]];
    rewrite E in Hin.
  - apply in_app_or in Hin; destruct Hin as [Hin | [<- | []]].
    + left; exists p'; repeat split; auto; lia.
    + right; auto.
  - apply in_map_iff in Hin; destruct Hin as [p [<- Hin]].
    left; exists p; destruct (Hf p) as (Hi & Hc & Hn & Hsc); auto.
  - apply filter_In in Hin; destruct Hin as [Hin _].
    left; exists p'; repeat split; auto; lia.
Qed.

(** ** Status and phase, both ways *)

Lemma same_code_same_room (rs : list Room) (a b : Room) :
  NoDup (map code rs) -> In a rs -> In b rs -> code a = code b -> a = b.
Proof.
  induction rs as [| x rs IH]; simpl; intros Hnd Ha Hb E; [destruct Ha |].
  inversion Hnd as [| ? ? Hx Hrs]; subst.
  destruct Ha as [-> | Ha]; destruct Hb as [-> | Hb]; auto.
  - exfalso; apply Hx; rewrite E; apply in_map; exact Hb.
  - exfalso; apply Hx; rewrite <- E; apply in_map; exact Ha.
Qed.

Lemma run_keeps_codes_unique (cmd : command) (db db' : DB) :
  run upper cmd db = Ok db' ->
  NoDup (map code (rooms db)) -> NoDup (map code (rooms db')).
Proof.
  intros H Hnd.
  destruct (run_rooms _ _ _ H)
    as [(rm & E & _ & _ & Hfresh) | [(f & E & Hf) | (g & E)]]; rewrite E.
  - rewrite map_app; apply NoDup_snoc; assumption.
  - rewrite map_map_key; [exact Hnd | intro rm; apply Hf].
  - apply NoDup_map_filter; exact Hnd.
Qed.

Lemma waiting_unphased_map (f : Room -> Room) (rs : list Room) :
  (forall rm, In rm rs -> waiting_unphased rm -> waiting_unphased (f rm)) ->
  Forall waiting_unphased rs -> Forall waiting_unphased (map f rs).
Proof.
  intros Hf H; apply Forall_forall; intros rm' Hin.
  apply in_map_iff in Hin; destruct Hin as [rm [<- Hin]].
  rewrite Forall_forall in H; auto.
Qed.

Lemma run_keeps_waiting_unphased (cmd : command) (db db' : DB) :
  run upper cmd db = Ok db' ->
  NoDup (map code (rooms db)) ->
  Forall waiting_unphased (rooms db) -> Forall waiting_unphased (rooms db').
Proof.
  destruct cmd; simpl; intros H Hnd Hok.
  - unfold create_room in H; break_ok H.
    apply insert_player_tables in Heqo; destruct Heqo as (Hr & _).
    inversion H; subst; rewrite Hr; simpl.
    apply Forall_app; split; [exact Hok |].
    constructor; [intro; reflexivity | constructor].
  - unfold join_room in H; break_ok H.
    apply insert_player_tables in Heqo0; destruct Heqo0 as (Hr & _).
    inversion H; subst; rewrite Hr; exact Hok.
  - unfold start_round in H; break_ok H.
    apply assign_words_and_roles_tables in E0; destruct E0 as (Hr & _).
    inversion H; subst; simpl; unfold open_discussion; rewrite Hr.
    apply waiting_unphased_map; [| exact Hok].
    intros rm _ Hw; destruct (code rm =s upper room_code_); [| exact Hw].
    unfold waiting_unphased; simpl; discriminate.
  - unfold start_voting in H.
    destruct (negb (is_host db (upper room_code_) name_)); [discriminate H |].
    destruct (find_room db (upper room_code_)) as [r0 |] eqn:Hf; [| discriminate H].
    destruct (current_phase r0) eqn:Hp; try discriminate H.
    inversion H; subst; simpl; unfold open_voting.
    apply waiting_unphased_map; [| exact Hok].
    intros rm Hin Hw; destruct (code rm =s upper room_code_) eqn:E; [| exact Hw].
    apply String.eqb_eq in E.
    apply find_room_in in Hf; destruct Hf as [Hin0 Hc0].
    assert (rm = r0) as -> by (eapply same_code_same_room; eauto; congruence).
    unfold waiting_unphased in *; simpl; intro Hs.
    rewrite (Hw Hs) in Hp; discriminate Hp.
  - unfold end_game in H; break_ok H; inversion H; subst; simpl.
    apply Forall_forall; intros rm Hin.
    apply filter_In in Hin; destruct Hin as [Hin _].
    rewrite Forall_forall in Hok; auto.
  - unfold vote in H; break_ok H.
    + apply process_round_results_rooms in H; rewrite H; unfold end_status; simpl.
      apply waiting_unphased_map; [| exact Hok].
      intros rm _ Hw; destruct (code rm =s upper room_code_); [| exact Hw].
      unfold waiting_unphased; simpl; discriminate.
    + inversion H; subst; exact Hok.
  - unfold end_round in H; break_ok H; inversion H; subst; simpl; unfold end_status.
    apply waiting_unphased_map; [| exact Hok].
    intros rm _ Hw; destruct (code rm =s upper room_code_); [| exact Hw].
    unfold waiting_unphased; simpl; discriminate.
  - unfold next_round in H; break_ok H.
    apply assign_words_and_roles_tables in E0; destruct E0 as (Hr & _).
    inversion H; subst; simpl; unfold open_discussion; rewrite Hr.
    apply waiting_unphased_map; [| exact Hok].
    intros rm _ Hw; destruct (code rm =s upper room_code_); [| exact Hw].
    unfold waiting_unphased; simpl; discriminate.
Qed.

Lemma reachable_waiting_unphased (db : DB) :
  reachable upper db ->
  NoDup (map code (rooms db)) /\ Forall waiting_unphased (rooms db).
Proof.
  induction 1 as [| db cmd db' _ [IHn IHw] H]; [split; constructor |].
  split.
  - eapply run_keeps_codes_unique; eauto.
  - eapply run_keeps_waiting_unphased; eauto.
Qed.

(** C6, as the handlers have it: in every store the service can reach, a
    room whose status is 'ongoing' has current_phase 'discussion' or
    'voting', and a room whose status is 'waiting' has no phase; so a room
    in discussion or voting is 'ongoing' or 'ended'.  Only the 'ended'
    part of the converse is not kept: ending a round sets the status to
    'ended' and leaves current_phase as it was. *)
Theorem status_and_phase_agree (db : DB) (rm : Room) :
  reachable upper db ->
  In rm (rooms db) ->
  (status rm = ongoing ->
   current_phase rm = discussion \/ current_phase rm = voting) /\
  (status rm = waiting -> current_phase rm = no_phase) /\
  (current_phase rm = discussion \/ current_phase rm = voting ->
   status rm = ongoing \/ status rm = ended).
Proof.
  intros Hr Hin.
  pose proof (reachable_phase_ok upper db Hr) as Hok.
  destruct (reachable_waiting_unphased db Hr) as [_ Hw].
  rewrite Forall_forall in Hok, Hw.
  specialize (Hok rm Hin); specialize (Hw rm Hin).
  split; [exact Hok | split; [exact Hw |]].
  intro Hp; destruct (status rm) eqn:Hs; auto.
  rewrite (Hw Hs) in Hp; destruct Hp as [Hp | Hp]; discriminate Hp.
Qed.

(** ** Votes and round results *)

Lemma find_player_in (db : DB) (c n : string) (p : Player) :
  find_player db c n = Some p -> In p (players db) /\ room_code p = c /\ name p = n.
Proof.
  unfold find_player; intro H; apply find_some in H.
  destruct H as [Hin E]; apply andb_true_iff in E; destruct E as [E1 E2].
  apply String.eqb_eq in E1, E2; auto.
Qed.

Lemma room_players_nonempty (db : DB) (c : string) :
  room_players db c <> [] -> In c (map room_code (players db)).
Proof.
  unfold room_players; intro H.
  destruct (filter _ (players db)) as [| p ps] eqn:E; [contradiction |].
  assert (In p (filter (fun p => room_code p =s c) (players db))) as Hin
      by (rewrite E; left; reflexivity).
  apply filter_In in Hin; destruct Hin as [Hin Hc]; apply String.eqb_eq in Hc.
  rewrite <- Hc; apply in_map; exact Hin.
Qed.

(** A vote is stored only for a room that has a player. *)
Lemma vote_room_has_player (db db' : DB) (room_code_ voter voted : string) (tie : nat) :
  vote upper db room_code_ voter voted tie = Ok db' ->
  In (upper room_code_) (map room_code (players db)).
Proof.
  unfold vote; intro H; break_ok H.
  - unfold process_round_results in H; break_ok H.
    apply find_player_in in Heqo0; destruct Heqo0 as (Hin & Hc & _).
    rewrite <- Hc; apply in_map; exact Hin.
  - apply room_players_nonempty; intro E.
    unfold room_players in E; simpl in E; unfold room_players in Heqb.
    simpl in Heqb; rewrite E in Heqb; discriminate Heqb.
Qed.

(** A request leaves the votes alone, deletes votes, or upserts one vote of
    the current round of a room that has a player. *)
Lemma run_votes_shape (cmd : command) (db db' : DB) :
  run upper cmd db = Ok db' ->
  votes db' = votes db \/
  (exists g, votes db' = filter g (votes db)) \/
  (exists c voter voted,
      votes db' = upsert_vote (votes db) c (current_round db c) voter voted /\
      In c (map room_code (players db))).
Proof.
  destruct cmd; simpl; intro H.
  - unfold create_room in H; break_ok H.
    apply insert_player_tables in Heqo; destruct Heqo as (_ & Hv & _).
    inversion H; subst; left; exact Hv.
  - unfold join_room in H; break_ok H.
    apply insert_player_tables in Heqo0; destruct Heqo0 as (_ & Hv & _).
    inversion H; subst; left; exact Hv.
  - unfold start_round in H; break_ok H.
    apply assign_words_and_roles_tables in E0; destruct E0 as (_ & Hv & _).
    inversion H; subst; left; exact Hv.
  - unfold start_voting in H; break_ok H; inversion H; left; reflexivity.
  - unfold end_game in H; break_ok H; inversion H; right; left; eexists; reflexivity.
  - right; right; exists (upper room_code_), voter_name_, voted_name_.
    split; [eapply vote_votes; exact H | eapply vote_room_has_player; exact H].
  - unfold end_round in H; break_ok H; inversion H; left; reflexivity.
  - unfold next_round in H; break_ok H.
    apply assign_words_and_roles_tables in E0; destruct E0 as (_ & Hv & _).
    inversion H; subst; simpl; right; left; rewrite Hv; eexists; reflexivity.
Qed.

Lemma resolution_row (db db' : DB) (c : string) (r : Z) (tie : nat) :
  process_round_results db c r tie = Ok db' ->
  exists n e, find_player db c n = Some e /\
              round_results db' = round_results db ++ [mkResult c r n (is_mafia e)].
Proof.
  unfold process_round_results; intro H; break_ok H.
  inversion H; subst; simpl; eauto.
Qed.

(** A request leaves the round results alone, deletes some, or appends
    one row for the current round of a room that has a player. *)
Lemma run_results_shape (cmd : command) (db db' : DB) :
  run upper cmd db = Ok db' ->
  round_results db' = round_results db \/
  (exists g, round_results db' = filter g (round_results db)) \/
  (exists c n m,
      round_results db' = round_results db ++ [mkResult c (current_round db c) n m] /\
      In c (map room_code (players db))).
Proof.
  destruct cmd; simpl; intro H.
  - unfold create_room in H; break_ok H.
    apply insert_player_tables in Heqo; destruct Heqo as (_ & _ & Hr & _).
    inversion H; subst; left; exact Hr.
  - unfold join_room in H; break_ok H.
    apply insert_player_tables in Heqo0; destruct Heqo0 as (_ & _ & Hr & _).
    inversion H; subst; left; exact Hr.
  - unfold start_round in H; break_ok H.
    apply assign_words_and_roles_tables in E0; destruct E0 as (_ & _ & Hr & _).
    inversion H; subst; left; exact Hr.
  - unfold start_voting in H; break_ok H; inversion H; left; reflexivity.
  - unfold end_game in H; break_ok H; inversion H; right; left; eexists; reflexivity.
  - unfold vote in H; break_ok H.
    + apply resolution_row in H; destruct H as (n & e & Hf & Hr).
      right; right; exists (upper room_code_), n, (is_mafia e).
      split; [exact Hr |].
      apply find_player_in in Hf; destruct Hf as (Hin & Hc & _).
      rewrite <- Hc; apply in_map; exact Hin.
    + inversion H; left; reflexivity.
  - unfold end_round in H; break_ok H; inversion H; subst; simpl.
    right; right; do 3 eexists; split; [reflexivity |].
    apply find_player_in in Heqo0; destruct Heqo0 as (Hin & Hc & _).
    rewrite <- Hc; apply in_map; exact Hin.
  - unfold next_round in H; break_ok H.
    apply assign_words_and_roles_tables in E0; destruct E0 as (_ & _ & Hr & _).
    inversion H; subst; left; exact Hr.
Qed.

(** ** The round counter *)

Lemma sql_max_ones (l : list Z) :
  (forall x, In x l -> x = 1) -> sql_max l = None \/ sql_max l = Some 1.
Proof.
  destruct l as [| x t]; [left; reflexivity |].
  intro H; right; simpl.
  rewrite (H x) by (left; reflexivity).
  assert (forall y, In y t -> y = 1) as Ht by (intros; apply H; right; assumption).
  clear H; induction t as [| y t IH]; simpl; [reflexivity |].
  rewrite (Ht y) by (left; reflexivity); simpl.
  apply IH; intros; apply Ht; right; assumption.
Qed.

Lemma max_round_ones (db : DB) (c : string) :
  (forall x, In x (round_results db) -> r_round x = 1) ->
  max_round db c = None \/ max_round db c = Some 1.
Proof.
  intro H; apply sql_max_ones.
  intros z Hin; apply in_map_iff in Hin; destruct Hin as [x [<- Hin]].
  apply filter_In in Hin; apply H, Hin.
Qed.

Lemma current_round_ones (db : DB) (c : string) :
  (forall x, In x (round_results db) -> r_round x = 1) ->
  current_round db c = 1.
Proof.
  intro H; unfold current_round.
  destruct (max_round_ones db c H) as [-> | ->]; reflexivity.
Qed.

Lemma upsert_vote_rows (vs : list Vote) (c voter voted : string) (r : Z) (v : Vote) :
  In v (upsert_vote vs c r voter voted) ->
  (v_room_code v = c /\ v_round v = r) \/
  (exists v0, In v0 vs /\ v_room_code v0 = v_room_code v /\ v_round v0 = v_round v).
Proof.
  unfold upsert_vote; destruct (existsb _ vs); intro Hin.
  - apply in_map_iff in Hin; destruct Hin as [v0 [E Hin]].
    right; exists v0; split; [exact Hin |].
    destruct (same_key c voter r v0); subst v; auto.
  - apply in_app_or in Hin; destruct Hin as [Hin | [<- | []]]; [right | left]; eauto.
Qed.

Lemma run_keeps_round_one (cmd : command) (db db' : DB) :
  run upper cmd db = Ok db' ->
  (forall x, In x (round_results db) -> r_round x = 1) /\
  (forall v, In v (votes db) -> v_round v = 1) ->
  (forall x, In x (round_results db') -> r_round x = 1) /\
  (forall v, In v (votes db') -> v_round v = 1).
Proof.
  intros H [Hr Hv]; split.
  - intros x Hin.
    destruct (run_results_shape _ _ _ H) as [E | [(g & E) | (c & n & m & E & _)]];
      rewrite E in Hin.
    + apply Hr, Hin.
    + apply filter_In in Hin; apply Hr, Hin.
    + apply in_app_or in Hin; destruct Hin as [Hin | [<- | []]]; [apply Hr, Hin |].
      simpl; apply current_round_ones; exact Hr.
  - intros v Hin.
    destruct (run_votes_shape _ _ _ H) as [E | [(g & E) | (c & vr & vd & E & _)]];
      rewrite E in Hin.
    + apply Hv, Hin.
    + apply filter_In in Hin; apply Hv, Hin.
    + apply upsert_vote_rows in Hin; destruct Hin as [[_ ->] | (v0 & Hin & _ & <-)].
      * apply current_round_ones; exact Hr.
      * apply Hv, Hin.
Qed.

Lemma reachable_round_one (db : DB) :
  reachable upper db ->
  (forall x, In x (round_results db) -> r_round x = 1) /\
  (forall v, In v (votes db) -> v_round v = 1).
Proof.
  induction 1 as [| db cmd db' _ IH H]; [split; intros ? [] |].
  eapply run_keeps_round_one; eauto.
Qed.

Lemma filter_none {A : Type} (f : A -> bool) (l : list A) :
  existsb f l = false -> filter f l = [].
Proof.
  induction l as [| a l IH]; simpl; [reflexivity |].
  intro E; apply orb_false_iff in E; destruct E as [-> E]; apply IH; exact E.
Qed.

(** X6: in every store the service can reach, every round result and
    every vote is filed under round 1, the current round of every room is
    1, and the number that next-round computes is 1 for a room without
    results and 2 otherwise: the round counter never goes past 2. *)
Theorem round_counter_is_stuck (db : DB) (c : string) :
  reachable upper db ->
  (forall x, In x (round_results db) -> r_round x = 1) /\
  (forall v, In v (votes db) -> v_round v = 1) /\
  current_round db c = 1 /\
  py_or (max_round db c) 0 + 1
  = (if existsb (fun x => r_room_code x =s c) (round_results db) then 2 else 1).
Proof.
  intro Hr; destruct (reachable_round_one db Hr) as [H1 H2].
  split; [exact H1 | split; [exact H2 | split; [apply current_round_ones; exact H1 |]]].
  unfold max_round.
  destruct (existsb _ (round_results db)) eqn:E.
  - apply existsb_exists in E; destruct E as [x [Hin Hc]].
    destruct (filter (fun r => r_room_code r =s c) (round_results db)) as [| y t] eqn:F.
    + assert (In x (filter (fun r => r_room_code r =s c) (round_results db))) as Hx
          by (apply filter_In; auto).
      rewrite F in Hx; destruct Hx.
    + destruct (sql_max_ones (map r_round (y :: t))) as [N | ->]; [| discriminate N | reflexivity].
      intros z Hz; apply in_map_iff in Hz; destruct Hz as [w [<- Hw]].
      rewrite <- F in Hw; apply filter_In in Hw; apply H1, Hw.
  - replace (filter (fun r => r_room_code r =s c) (round_results db)) with (@nil RoundResult);
      [reflexivity |].
    symmetry; apply filter_none; exact E.
Qed.

(** ** Rows and their room *)

Lemma open_discussion_codes (db : DB) (c : string) :
  map code (open_discussion db c) = map code (rooms db).
Proof.
  unfold open_discussion; apply map_map_key.
  intro rm; destruct (code rm =s c); reflexivity.
Qed.

Lemma open_voting_codes (db : DB) (c : string) :
  map code (open_voting db c) = map code (rooms db).
Proof.
  unfold open_voting; apply map_map_key.
  intro rm; destruct (code rm =s c); reflexivity.
Qed.

Lemma end_status_codes (db : DB) (c : string) :
  map code (end_status db c) = map code (rooms db).
Proof.
  unfold end_status; apply map_map_key.
  intro rm; destruct (code rm =s c); reflexivity.
Qed.

(** Only end-game takes a room code away. *)
Lemma run_codes (cmd : command) (db db' : DB) (c : string) :
  run upper cmd db = Ok db' ->
  (forall c0 n0, cmd <> EndGame c0 n0) ->
  In c (map code (rooms db)) -> In c (map code (rooms db')).
Proof.
  destruct cmd; simpl; intros H Hne Hin.
  - unfold create_room in H; break_ok H.
    apply insert_player_tables in Heqo; destruct Heqo as (Hr & _).
    inversion H; subst; rewrite Hr; simpl.
    rewrite map_app; apply in_or_app; left; exact Hin.
  - unfold join_room in H; break_ok H.
    apply insert_player_tables in Heqo0; destruct Heqo0 as (Hr & _).
    inversion H; subst; rewrite Hr; exact Hin.
  - unfold start_round in H; break_ok H.
    apply assign_words_and_roles_tables in E0; destruct E0 as (Hr & _).
    inversion H; subst; simpl.
    rewrite open_discussion_codes, Hr; exact Hin.
  - unfold start_voting in H; break_ok H; inversion H; subst; simpl.
    rewrite open_voting_codes; exact Hin.
  - exfalso; eapply Hne; reflexivity.
  - unfold vote in H; break_ok H.
    + apply process_round_results_rooms in H; rewrite H, end_status_codes; exact Hin.
    + inversion H; subst; exact Hin.
  - unfold end_round in H; break_ok H; inversion H; subst; simpl.
    rewrite end_status_codes; exact Hin.
  - unfold next_round in H; break_ok H.
    apply assign_words_and_roles_tables in E0; destruct E0 as (Hr & _).
    inversion H; subst; simpl.
    rewrite open_discussion_codes, Hr; exact Hin.
Qed.

Lemma code_survives_end_game (db : DB) (c c0 : string) :
  c0 <> c -> In c0 (map code (rooms db)) ->
  In c0 (map code (filter (fun rm => negb (code rm =s c)) (rooms db))).
Proof.
  intros Hne Hin; apply in_map_iff in Hin; destruct Hin as [rm [E Hin]].
  apply in_map_iff; exists rm; split; [exact E |].
  apply filter_In; split; [exact Hin |].
  apply negb_true_iff, String.eqb_neq; congruence.
Qed.

Lemma run_keeps_rows_in_rooms (cmd : command) (db db' : DB) :
  run upper cmd db = Ok db' ->
  (forall p, In p (players db) -> In (room_code p) (map code (rooms db))) /\
  (forall v, In v (votes db) -> In (v_room_code v) (map code (rooms db))) /\
  (forall x, In x (round_results db) -> In (r_room_code x) (map code (rooms db))) ->
  (forall p, In p (players db') -> In (room_code p) (map code (rooms db'))) /\
  (forall v, In v (votes db') -> In (v_room_code v) (map code (rooms db'))) /\
  (forall x, In x (round_results db') -> In (r_room_code x) (map code (rooms db'))).
Proof.
  intros H (Hp & Hv & Hx).
  assert ((exists c0 n0, cmd = EndGame c0 n0) \/ forall c0 n0, cmd <> EndGame c0 n0)
    as [(c0 & n0 & ->) | Hne]
      by (destruct cmd; try (right; intros; discriminate); left; eauto).
  - simpl in H; unfold end_game in H; break_ok H; inversion H; subst; simpl.
    split; [| split].
    + intros p Hin; apply filter_In in Hin; destruct Hin as [Hin Hc].
      apply negb_true_iff, String.eqb_neq in Hc.
      apply code_survives_end_game; auto.
    + intros v Hin; apply filter_In in Hin; destruct Hin as [Hin Hc].
      apply negb_true_iff, String.eqb_neq in Hc.
      apply code_survives_end_game; auto.
    + intros x Hin; apply filter_In in Hin; destruct Hin as [Hin Hc].
      apply negb_true_iff, String.eqb_neq in Hc.
      apply code_survives_end_game; auto.
  - assert (forall c, In c (map room_code (players db)) -> In c (map code (rooms db')))
      as Hroom.
    { intros c Hin; apply in_map_iff in Hin; destruct Hin as [p [<- Hin]].
      eapply run_codes; eauto. }
    split; [| split].
    + intros p Hin.
      destruct (run_players _ _ _ H)
        as [(q & E & _ & _ & _ & _ & _ & Hq) | [(f & E & Hf) | (g & E)]];
        rewrite E in Hin.
      * apply in_app_or in Hin; destruct Hin as [Hin | [<- | []]]; [| exact Hq].
        eapply run_codes; eauto.
      * apply in_map_iff in Hin; destruct Hin as [q [<- Hin]].
        destruct (Hf q) as (_ & -> & _); eapply run_codes; eauto.
      * apply filter_In in Hin; destruct Hin as [Hin _]; eapply run_codes; eauto.
    + intros v Hin.
      destruct (run_votes_shape _ _ _ H) as [E | [(g & E) | (c & vr & vd & E & Hc)]];
        rewrite E in Hin.
      * eapply run_codes; eauto.
      * apply filter_In in Hin; destruct Hin as [Hin _]; eapply run_codes; eauto.
      * apply upsert_vote_rows in Hin; destruct Hin as [[-> _] | (v0 & Hin & <- & _)].
        -- apply Hroom, Hc.
        -- eapply run_codes; eauto.
    + intros x Hin.
      destruct (run_results_shape _ _ _ H) as [E | [(g & E) | (c & n & m & E & Hc)]];
        rewrite E in Hin.
      * eapply run_codes; eauto.
      * apply filter_In in Hin; destruct Hin as [Hin _]; eapply run_codes; eauto.
      * apply in_app_or in Hin; destruct Hin as [Hin | [<- | []]].
        -- eapply run_codes; eauto.
        -- simpl; apply Hroom, Hc.
Qed.

(** X5: in every store the service can reach, every player, every vote
    and every round result carries the code of a room that exists: end-game
    takes the rows of the room with it, and votes and resolutions for a
    code without room are refused. *)
Theorem reachable_rows_have_room (db : DB) :
  reachable upper db ->
  (forall p, In p (players db) -> In (room_code p) (map code (rooms db))) /\
  (forall v, In v (votes db) -> In (v_room_code v) (map code (rooms db))) /\
  (forall x, In x (round_results db) -> In (r_room_code x) (map code (rooms db))).
Proof.
  induction 1 as [| db cmd db' _ IH H]; [repeat split; intros ? [] |].
  eapply run_keeps_rows_in_rooms; eauto.
Qed.

(** ** Creating and joining a room *)

Lemma find_snoc {A : Type} (f : A -> bool) (l : list A) (x : A) :
  find f l = None -> f x = true -> find f (l ++ [x]) = Some x.
Proof.
  induction l as [| a l IH]; simpl; intros Hn Hx; [rewrite Hx; reflexivity |].
  destruct (f a); [discriminate | apply IH; assumption].
Qed.

Lemma find_player_none (db : DB) (c n : string) :
  find_player db c n = None <-> ~ In (c, n) (map player_key (players db)).
Proof.
  unfold find_player; split.
  - intros H Hin; apply in_map_iff in Hin; destruct Hin as [p [E Hin]].
    apply (find_none _ _ H) in Hin.
    unfold player_key in E; inversion E; subst.
    rewrite !String.eqb_refl in Hin; discriminate.
  - intro H; destruct (find _ (players db)) as [p |] eqn:E; [| reflexivity].
    apply find_some in E; destruct E as [Hin E].
    apply andb_true_iff in E; destruct E as [E1 E2]; apply String.eqb_eq in E1, E2.
    exfalso; apply H; apply in_map_iff; exists p; unfold player_key; split;
      [congruence | exact Hin].
Qed.

Lemma find_player_new (db : DB) (new_id : Z) (c n : string) :
  ~ In (c, n) (map player_key (players db)) ->
  find_player (set_players db (players db ++ [new_player new_id c n])) c n
  = Some (new_player new_id c n).
Proof.
  intro H; unfold find_player; simpl.
  apply find_snoc; [apply find_player_none; exact H |].
  simpl; rewrite !String.eqb_refl; reflexivity.
Qed.

(** X7: a room that has been created can be looked up.  Create-room
    files the room under one of its ten draws, waiting, without phase
    and with the creator as host, adds the creator as a player without
    word or role, and touches no other row; the creator is then the host
    and the status request answers waiting. *)
Theorem create_room_round_trip (db db' : DB) (m : Z) (n : string)
    (draws : nat -> string) (new_id : Z) :
  create_room db m n draws new_id = Ok db' ->
  exists c,
    (exists i, (i < 10)%nat /\ draws i = c) /\
    rooms db' = rooms db ++ [mkRoom c m n waiting no_phase] /\
    players db' = players db ++ [new_player new_id c n] /\
    votes db' = votes db /\ round_results db' = round_results db /\
    find_room db' c = Some (mkRoom c m n waiting no_phase) /\
    get_player_word db' c n = Ok (None, None) /\
    (upper c = c ->
     check_host upper db' c n = true /\
     get_room_status upper db' c = Ok (waiting, no_phase)).
Proof.
  unfold create_room; intro H; break_ok H; inversion H; subst; clear H.
  rename Heqr into Hgen.
  destruct (generate_unique_room_code_cases db draws) as [Hok _].
  destruct (Hok _ Hgen) as [Hdraw Hfree].
  apply insert_player_spec in Heqo; destruct Heqo as (-> & Hid & Hkey).
  simpl in Hkey.
  exists a; split; [exact Hdraw |]; simpl.
  assert (find_room
            (set_players (set_rooms db (rooms db ++ [mkRoom a m n waiting no_phase]))
               (players db ++ [new_player new_id a n])) a
          = Some (mkRoom a m n waiting no_phase)) as Hfind.
  { unfold find_room; simpl; apply find_snoc; [exact Hfree |].
    simpl; apply String.eqb_refl. }
  repeat split; auto.
  - unfold get_player_word.
    change (find_player
              (set_players (set_rooms db (rooms db ++ [mkRoom a m n waiting no_phase]))
                 (players db ++ [new_player new_id a n])) a n)
      with (find_player (set_players db (players db ++ [new_player new_id a n])) a n).
    rewrite find_player_new by exact Hkey; reflexivity.
  - unfold check_host, is_host; rewrite H, Hfind; apply String.eqb_refl.
  - unfold get_room_status; rewrite H, Hfind; reflexivity.
Qed.



(** ** Starting a round and the voting *)

Lemma is_host_true (db : DB) (c n : string) :
  is_host db c n = true <-> exists rm, find_room db c = Some rm /\ host_name rm = n.
Proof.
  unfold is_host; destruct (find_room db c) as [rm |]; split.
  - intro E; apply String.eqb_eq in E; eauto.
  - intros [rm' [E <-]]; inversion E; apply String.eqb_refl.
  - discriminate.
  - intros [rm' [E _]]; discriminate E.
Qed.

(** X9: start-round answers Forbidden exactly when is-host answers
    false, and never NotFound.  For the host it answers BadRequest exactly
    when the room has fewer players than mafia_count, a 500 exactly when
    mafia_count is negative, and succeeds exactly when
    0 <= mafia_count <= number of players. *)
Theorem start_round_outcome (db : DB) (room_code_ name_ : string) (idx : list nat)
    (reply : option (string * string)) :
  (start_round upper db room_code_ name_ idx reply = Err Forbidden <->
   check_host upper db room_code_ name_ = false) /\
  start_round upper db room_code_ name_ idx reply <> Err NotFound /\
  (forall rm,
      find_room db (upper room_code_) = Some rm -> host_name rm = name_ ->
      (start_round upper db room_code_ name_ idx reply = Err BadRequest <->
       Z.of_nat (List.length (room_players db (upper room_code_))) < mafia_count rm) /\
      (start_round upper db room_code_ name_ idx reply = Err ServerError <->
       mafia_count rm < 0) /\
      ((exists db', start_round upper db room_code_ name_ idx reply = Ok db') <->
       0 <= mafia_count rm
       <= Z.of_nat (List.length (room_players db (upper room_code_))))).
Proof.
  unfold check_host.
  destruct (is_host db (upper room_code_) name_) eqn:Hh.
  - apply is_host_true in Hh; destruct Hh as [rm [Hf Hn]]; subst name_.
    assert (List.length (player_ids db (upper room_code_))
            = List.length (room_players db (upper room_code_))) as Hlen
        by (unfold player_ids; apply length_map).
    destruct (Z_lt_le_dec (Z.of_nat (List.length (room_players db (upper room_code_))))
                          (mafia_count rm)) as [Hfew | Henough].
    + assert (start_round upper db room_code_ (host_name rm) idx reply = Err BadRequest)
        as E.
      { unfold start_round; rewrite (is_host_self _ _ _ Hf), Hf; simpl.
        rewrite Hlen; apply Z.ltb_lt in Hfew; rewrite Hfew; reflexivity. }
      rewrite E; split; [split; discriminate | split; [discriminate |]].
      intros rm' Hf' _; rewrite Hf in Hf'; inversion Hf'; subst rm'.
      split; [split; [intros _; exact Hfew | reflexivity] | split].
      * split; [discriminate | lia].
      * split; [intros [db' H]; discriminate H | lia].
    + destruct (Z_lt_le_dec (mafia_count rm) 0) as [Hneg | Hpos].
      * assert (start_round upper db room_code_ (host_name rm) idx reply
                = Err ServerError) as E.
        { unfold start_round; rewrite (is_host_self _ _ _ Hf), Hf; simpl.
          rewrite Hlen.
          replace (Z.of_nat (List.length (room_players db (upper room_code_)))
                   <? mafia_count rm) with false by (symmetry; apply Z.ltb_ge; lia).
          unfold random_sample.
          apply Z.ltb_lt in Hneg; rewrite Hneg; reflexivity. }
        rewrite E; split; [split; discriminate | split; [discriminate |]].
        intros rm' Hf' _; rewrite Hf in Hf'; inversion Hf'; subst rm'.
        split; [split; [discriminate | lia] | split].
        -- split; [intros _; exact Hneg | reflexivity].
        -- split; [intros [db' H]; discriminate H | lia].
      * destruct (start_round_ok upper db room_code_ idx reply rm Hf (conj Hpos Henough))
          as [a [_ E]].
        rewrite E; split; [split; discriminate | split; [discriminate |]].
        intros rm' Hf' _; rewrite Hf in Hf'; inversion Hf'; subst rm'.
        split; [split; [discriminate | lia] | split].
        -- split; [discriminate | lia].
        -- split; [lia | eauto].
  - assert (start_round upper db room_code_ name_ idx reply = Err Forbidden) as E
        by (unfold start_round; rewrite Hh; reflexivity).
    rewrite E; split; [split; reflexivity | split; [discriminate |]].
    intros rm Hf Hn; exfalso.
    assert (is_host db (upper room_code_) name_ = true) as T
        by (apply is_host_true; eauto).
    congruence.
Qed.

Lemma find_map_code (f : Room -> Room) (c : string) (rs : list Room) :
  (forall rm, code (f rm) = code rm) ->
  find (fun rm => code rm =s c) (map f rs)
  = option_map f (find (fun rm => code rm =s c) rs).
Proof.
  intro Hf; induction rs as [| rm rs IH]; simpl; [reflexivity |].
  rewrite Hf; destruct (code rm =s c); [reflexivity | exact IH].
Qed.

(** X10: start-voting moves the room from discussion to voting and
    touches nothing else; asked a second time it answers BadRequest,
    and the status request shows the voting phase. *)
Theorem start_voting_once (db db' : DB) (room_code_ name_ : string) :
  start_voting upper db room_code_ name_ = Ok db' ->
  (exists rm,
      find_room db (upper room_code_) = Some rm /\ host_name rm = name_ /\
      current_phase rm = discussion /\
      get_room_status upper db' room_code_ = Ok (status rm, voting)) /\
  players db' = players db /\ votes db' = votes db /\
  round_results db' = round_results db /\
  start_voting upper db' room_code_ name_ = Err BadRequest.
Proof.
  unfold start_voting; intro H.
  destruct (is_host db (upper room_code_) name_) eqn:Hh; [| discriminate H].
  simpl in H.
  destruct (find_room db (upper room_code_)) as [rm |] eqn:Hf; [| discriminate H].
  destruct (current_phase rm) eqn:Hp; try discriminate H.
  inversion H; subst db'; clear H; simpl.
  assert (find_room (set_rooms db (open_voting db (upper room_code_))) (upper room_code_)
          = Some (mkRoom (code rm) (mafia_count rm) (host_name rm) (status rm) voting))
    as Hf'.
  { unfold find_room, open_voting; simpl.
    rewrite find_map_code
      by (intro r; destruct (code r =s upper room_code_); reflexivity).
    unfold find_room in Hf; rewrite Hf; simpl.
    apply find_room_in in Hf; destruct Hf as [_ ->].
    rewrite String.eqb_refl; reflexivity. }
  apply is_host_true in Hh; destruct Hh as [rm' [E Hn]].
  rewrite Hf in E; inversion E; subst rm'; clear E.
  split; [exists rm; repeat split; auto |].
  - unfold get_room_status; rewrite Hf'; reflexivity.
  - repeat split.
    unfold is_host; rewrite Hf'; simpl.
    rewrite Hn, String.eqb_refl; reflexivity.
Qed.

(** ** Ending a game *)

Lemma filter_filter_keep {A : Type} (f h : A -> bool) (l : list A) :
  (forall x, f x = true -> h x = true) -> filter f (filter h l) = filter f l.
Proof.
  intro H; induction l as [| a l IH]; simpl; [reflexivity |].
  destruct (h a) eqn:Eh; simpl.
  - rewrite IH; reflexivity.
  - destruct (f a) eqn:Ef; [| exact IH].
    rewrite (H a Ef) in Eh; discriminate Eh.
Qed.

Lemma filter_filter_drop {A : Type} (f h : A -> bool) (l : list A) :
  (forall x, h x = true -> f x = false) -> filter f (filter h l) = [].
Proof.
  intro H; induction l as [| a l IH]; simpl; [reflexivity |].
  destruct (h a) eqn:Eh; simpl; [| exact IH].
  rewrite (H a Eh); exact IH.
Qed.

Lemma find_filter_keep {A : Type} (f h : A -> bool) (l : list A) :
  (forall x, f x = true -> h x = true) -> find f (filter h l) = find f l.
Proof.
  intro H; induction l as [| a l IH]; simpl; [reflexivity |].
  destruct (h a) eqn:Eh; simpl.
  - rewrite IH; reflexivity.
  - destruct (f a) eqn:Ef; [| exact IH].
    rewrite (H a Ef) in Eh; discriminate Eh.
Qed.

Lemma other_code (c c2 x : string) :
  c2 <> c -> (x =s c2) = true -> negb (x =s c) = true.
Proof.
  intros Hne E; apply String.eqb_eq in E; subst x.
  apply negb_true_iff, String.eqb_neq; exact Hne.
Qed.

Lemma same_code (c x : string) : negb (x =s c) = true -> (x =s c) = false.
Proof. apply negb_true_iff. Qed.

(** X11: end-game removes the room with all its players, votes and round
    results, so that the status request answers NotFound, and leaves the
    room, player, vote and round-result rows of every other code as they
    are, row for row. *)
Theorem end_game_cleans (db db' : DB) (room_code_ name_ : string) :
  end_game upper db room_code_ name_ = Ok db' ->
  (filter (fun rm => code rm =s upper room_code_) (rooms db') = [] /\
   filter (fun p => room_code p =s upper room_code_) (players db') = [] /\
   filter (fun v => v_room_code v =s upper room_code_) (votes db') = [] /\
   filter (fun x => r_room_code x =s upper room_code_) (round_results db') = [] /\
   find_room db' (upper room_code_) = None /\
   (forall r, round_votes db' (upper room_code_) r = []) /\
   max_round db' (upper room_code_) = None /\
   get_room_status upper db' room_code_ = Err NotFound) /\
  (forall c2, c2 <> upper room_code_ ->
              filter (fun rm => code rm =s c2) (rooms db')
              = filter (fun rm => code rm =s c2) (rooms db) /\
              filter (fun p => room_code p =s c2) (players db')
              = filter (fun p => room_code p =s c2) (players db) /\
              filter (fun v => v_room_code v =s c2) (votes db')
              = filter (fun v => v_room_code v =s c2) (votes db) /\
              filter (fun x => r_room_code x =s c2) (round_results db')
              = filter (fun x => r_room_code x =s c2) (round_results db) /\
              find_room db' c2 = find_room db c2 /\
              (forall r, round_votes db' c2 r = round_votes db c2 r) /\
              max_round db' c2 = max_round db c2).
Proof.
  unfold end_game; intro H.
  destruct (negb (is_host db (upper room_code_) name_)); [discriminate H |].
  inversion H; subst db'; clear H.
  split.
  - assert (find_room
              (mkDB (filter (fun rm => negb (code rm =s upper room_code_)) (rooms db))
                    (filter (fun p => negb (room_code p =s upper room_code_)) (players db))
                    (filter (fun v => negb (v_room_code v =s upper room_code_)) (votes db))
                    (filter (fun r => negb (r_room_code r =s upper room_code_))
                            (round_results db)))
              (upper room_code_) = None) as Hnone.
    { apply find_room_none; simpl; intro Hin.
      apply in_map_iff in Hin; destruct Hin as [rm [E Hin]].
      apply filter_In in Hin; destruct Hin as [_ Hc].
      rewrite E, String.eqb_refl in Hc; discriminate Hc. }
    simpl.
    split; [apply filter_filter_drop; intro rm; apply same_code |].
    split; [apply filter_filter_drop; intro q; apply same_code |].
    split; [apply filter_filter_drop; intro v; apply same_code |].
    split; [apply filter_filter_drop; intro x; apply same_code |].
    split; [exact Hnone | split; [| split]].
    + intro r; unfold round_votes; simpl.
      apply filter_filter_drop; intros v Hc.
      apply same_code in Hc; rewrite Hc; reflexivity.
    + unfold max_round; simpl.
      rewrite filter_filter_drop; [reflexivity | intro x; apply same_code].
    + unfold get_room_status; rewrite Hnone; reflexivity.
  - intros c2 Hne; simpl.
    split; [apply filter_filter_keep; intro rm; apply other_code; exact Hne |].
    split; [apply filter_filter_keep; intro q; apply other_code; exact Hne |].
    split; [apply filter_filter_keep; intro v; apply other_code; exact Hne |].
    split; [apply filter_filter_keep; intro x; apply other_code; exact Hne |].
    split; [| split].
    + unfold find_room; simpl.
      apply find_filter_keep; intro rm; apply other_code; exact Hne.
    + intro r; unfold round_votes; simpl.
      apply filter_filter_keep; intros v Hc.
      apply andb_true_iff in Hc; destruct Hc as [Hc _].
      eapply other_code; eauto.
    + unfold max_round; simpl.
      rewrite filter_filter_keep; [reflexivity |].
      intro x; apply other_code; exact Hne.
Qed.

(** ** The eliminated player *)

Lemma count_for_pos (n : string) (vs : list Vote) :
  In n (map voted_name vs) -> (0 < count_for n vs)%nat.
Proof.
  intro Hin; destruct (count_for n vs) eqn:E; [exfalso | lia].
  apply (proj1 (count_for_zero upper n vs)) in E.
  assert (mem n (map voted_name vs) = true) as T by (apply mem_spec; exact Hin).
  congruence.
Qed.

Lemma end_status_ended (db : DB) (c : string) (rm : Room) :
  In rm (end_status db c) -> code rm = c -> status rm = ended.
Proof.
  unfold end_status; intros Hin Hc.
  apply in_map_iff in Hin; destruct Hin as [rm0 [<- _]].
  destruct (code rm0 =s c) eqn:E; [reflexivity |].
  apply String.eqb_neq in E; contradiction.
Qed.

(** X14: a resolution, on either path, eliminates a player of the room
    whose name has at least one vote of the round and at least as many as
    any other name, records that player with the role the player has, and
    leaves the room with status 'ended'. *)
Theorem resolution_eliminates_plurality (db db' : DB) (c : string) (r : Z) (tie : nat) :
  resolved upper db c r tie db' ->
  exists n e,
    round_results db' = round_results db ++ [mkResult c r n (is_mafia e)] /\
    find_player db c n = Some e /\
    (0 < count_for n (round_votes db c r))%nat /\
    (forall m, (count_for m (round_votes db c r)
                <= count_for n (round_votes db c r))%nat) /\
    (forall rm, In rm (rooms db') -> code rm = c -> status rm = ended).
Proof.
  intro Hres.
  assert (exists n e ps,
             top_voted tie (round_votes db c r) = Some n /\ find_player db c n = Some e /\
             db' = record_result db ps c r n (is_mafia e)) as (n & e & ps & Ht & Hf & ->).
  { destruct Hres as [H | [room_code_ [-> [-> H]]]].
    - unfold process_round_results in H; break_ok H; inversion H; eauto 6.
    - unfold end_round in H; break_ok H; inversion H; eauto 6. }
  destruct (top_voted_spec _ _ _ Ht) as [Hin Hmax].
  exists n, e; simpl; repeat split; auto.
  - apply count_for_pos; exact Hin.
  - intros rm; apply end_status_ended.
Qed.

(** X13: end-round answers BadRequest exactly when the current round of
    the room has no vote, and NotFound exactly when the name that the vote
    count answers, one of the names with the most votes, [tie] settling
    which, is no player of the room. *)
Theorem end_round_refusals (db : DB) (room_code_ : string) (tie : nat) :
  (end_round upper db room_code_ tie = Err BadRequest <->
   round_votes db (upper room_code_) (current_round db (upper room_code_)) = []) /\
  (end_round upper db room_code_ tie = Err NotFound <->
   exists n,
     top_voted tie (round_votes db (upper room_code_) (current_round db (upper room_code_)))
     = Some n /\
     ~ In (upper room_code_, n) (map player_key (players db))).
Proof.
  unfold end_round.
  destruct (top_voted _) as [n |] eqn:T.
  - assert (round_votes db (upper room_code_) (current_round db (upper room_code_)) <> [])
      as Hne by (intro E; apply (top_voted_none tie) in E; congruence).
    destruct (find_player db (upper room_code_) n) as [e |] eqn:F.
    + assert (In (upper room_code_, n) (map player_key (players db))) as Hin.
      { apply find_player_in in F; destruct F as (Hin & <- & <-).
        apply (in_map player_key); exact Hin. }
      unfold add_point; destruct (existsb _ (players db)); simpl.
      * split; [split; [discriminate | contradiction] |].
        split; [discriminate |].
        intros [n' [E Hn]]; inversion E; subst n'; contradiction.
      * split; [split; [discriminate | contradiction] |].
        split; [discriminate |].
        intros [n' [E Hn]]; inversion E; subst n'; contradiction.
    + apply find_player_none in F.
      split; [split; [discriminate | contradiction] |].
      split; [intros _; eauto | reflexivity].
  - apply top_voted_none in T.
    split; [split; [intros _; exact T | reflexivity] |].
    split; [discriminate |].
    intros [n [E _]]; discriminate E.
Qed.

(** ** Votes and the quorum *)

Lemma upsert_vote_has_row (vs : list Vote) (c voter voted : string) (r : Z) :
  exists v, In v (upsert_vote vs c r voter voted) /\ v_room_code v = c /\ v_round v = r.
Proof.
  unfold upsert_vote; destruct (existsb (same_key c voter r) vs) eqn:E.
  - apply existsb_exists in E; destruct E as [v [Hin K]].
    exists (mkVote (v_room_code v) (v_round v) (voter_name v) voted).
    apply same_key_spec in K; unfold vote_key in K; inversion K; subst.
    split; [| auto].
    apply in_map_iff; exists v; split; [| exact Hin].
    replace (same_key (v_room_code v) (voter_name v) (v_round v) v) with true;
      [reflexivity |].
    symmetry; apply same_key_spec; reflexivity.
  - exists (mkVote c r voter voted); split; [| auto].
    apply in_or_app; right; left; reflexivity.
Qed.

Lemma no_player_of_empty_room (db : DB) (c n : string) :
  room_players db c = [] -> find_player db c n = None.
Proof.
  unfold room_players, find_player; intro H.
  destruct (find _ (players db)) as [p |] eqn:E; [| reflexivity].
  apply find_some in E; destruct E as [Hin E].
  apply andb_true_iff in E; destruct E as [E _].
  assert (In p (filter (fun p => room_code p =s c) (players db))) as Hp
      by (apply filter_In; auto).
  rewrite H in Hp; destruct Hp.
Qed.

(** X12: a vote for a room code that has no player (a room that does not
    exist, say) is answered with a 500 and is not stored: the quorum of
    zero players is met at once and the resolution finds no player to
    eliminate. *)
Theorem vote_needs_players (db : DB) (room_code_ voter voted : string) (tie : nat) :
  room_players db (upper room_code_) = [] ->
  vote upper db room_code_ voter voted tie = Err ServerError /\
  step upper db (CastVote room_code_ voter voted tie) = db.
Proof.
  intro Hempty.
  assert (vote upper db room_code_ voter voted tie = Err ServerError) as E.
  { unfold vote.
    change (room_players
              (set_votes db
                 (upsert_vote (votes db) (upper room_code_)
                    (current_round db (upper room_code_)) voter voted))
              (upper room_code_))
      with (room_players db (upper room_code_)).
    rewrite Hempty; simpl.
    unfold process_round_results.
    destruct (top_voted _) as [n |] eqn:T.
    - change (find_player
                (set_votes db
                   (upsert_vote (votes db) (upper room_code_)
                      (current_round db (upper room_code_)) voter voted))
                (upper room_code_) n)
        with (find_player db (upper room_code_) n).
      rewrite no_player_of_empty_room by exact Hempty; reflexivity.
    - exfalso; apply top_voted_none in T.
      destruct (upsert_vote_has_row (votes db) (upper room_code_) voter voted
                  (current_round db (upper room_code_))) as (v & Hin & Hc & Hr).
      assert (In v (round_votes
                      (set_votes db
                         (upsert_vote (votes db) (upper room_code_)
                            (current_round db (upper room_code_)) voter voted))
                      (upper room_code_) (current_round db (upper room_code_)))) as Hv.
      { unfold round_votes; simpl; apply filter_In; split; [exact Hin |].
        rewrite Hc, Hr, String.eqb_refl, Z.eqb_refl; reflexivity. }
      change (current_round
                (set_votes db
                   (upsert_vote (votes db) (upper room_code_)
                      (current_round db (upper room_code_)) voter voted))
                (upper room_code_))
        with (current_round db (upper room_code_)) in T.
      rewrite T in Hv; destruct Hv. }
  split; [exact E | unfold step; simpl; rewrite E; reflexivity].
Qed.

Lemma nodup_snoc_fresh (l : list string) (x : string) :
  ~ In x l ->
  List.length (nodup string_dec (l ++ [x])) = S (List.length (nodup string_dec l)).
Proof.
  induction l as [| a l IH]; simpl; intro H; [reflexivity |].
  assert (a <> x /\ ~ In x l) as [Hax Hx] by tauto.
  destruct (in_dec string_dec a (l ++ [x])) as [Hin | Hnot];
    destruct (in_dec string_dec a l) as [Hin' | Hnot']; simpl.
  - apply IH, Hx.
  - exfalso; apply in_app_or in Hin; destruct Hin as [Hin | [E | []]];
      [contradiction | congruence].
  - exfalso; apply Hnot, in_or_app; left; exact Hin'.
  - rewrite IH by exact Hx; reflexivity.
Qed.

(** X16: a vote of a voter who has no vote in the current round of the
    room adds a row and raises the number of distinct voters of the round
    by exactly one. *)
Theorem new_voter_counts_once (db db' : DB) (room_code_ voter voted : string) (tie : nat) :
  ~ In (upper room_code_, voter, current_round db (upper room_code_))
       (map vote_key (votes db)) ->
  vote upper db room_code_ voter voted tie = Ok db' ->
  votes db' = votes db ++ [mkVote (upper room_code_) (current_round db (upper room_code_))
                                  voter voted] /\
  distinct_voters db' (upper room_code_) (current_round db (upper room_code_))
  = S (distinct_voters db (upper room_code_) (current_round db (upper room_code_))).
Proof.
  intros Hnew H.
  pose proof (vote_votes upper _ _ _ _ _ _ H) as E.
  set (c := upper room_code_) in *; set (r := current_round db c) in *.
  assert (existsb (same_key c voter r) (votes db) = false) as F.
  { destruct (existsb (same_key c voter r) (votes db)) eqn:X; [| reflexivity].
    exfalso; apply Hnew.
    apply existsb_exists in X; destruct X as [v [Hin K]].
    apply same_key_spec in K; rewrite <- K; apply in_map; exact Hin. }
  unfold upsert_vote in E; rewrite F in E.
  split; [exact E |].
  unfold distinct_voters, round_votes; rewrite E, filter_app; simpl.
  rewrite String.eqb_refl, Z.eqb_refl; simpl.
  rewrite map_app; simpl; apply nodup_snoc_fresh.
  intro Hin; apply in_map_iff in Hin; destruct Hin as [v [Hn Hv]].
  apply filter_In in Hv; destruct Hv as [Hv K].
  apply andb_true_iff in K; destruct K as [K1 K2].
  apply String.eqb_eq in K1; apply Z.eqb_eq in K2.
  apply Hnew; apply in_map_iff; exists v; split; [| exact Hv].
  unfold vote_key; congruence.
Qed.

(** ** The next round *)

Lemma public_rows_kept (f : Player -> Player) (ps : list Player) (c : string) :
  (forall p, room_code (f p) = room_code p /\ name (f p) = name p /\
             score (f p) = score p) ->
  map (fun p => (name p, score p)) (filter (fun p => room_code p =s c) (map f ps))
  = map (fun p => (name p, score p)) (filter (fun p => room_code p =s c) ps).
Proof.
  intro Hf; induction ps as [| p ps IH]; simpl; [reflexivity |].
  destruct (Hf p) as (Hc & Hn & Hs); rewrite Hc.
  destruct (room_code p =s c); simpl; rewrite IH; [rewrite Hn, Hs |]; reflexivity.
Qed.

(** X15: next-round deletes the votes of the room and of no other room,
    keeps the round results and every player's name and score, and leaves
    the room ongoing in discussion with a vote count of zero. *)
Theorem next_round_resets (db db' : DB) (room_code_ name_ : string) (idx : list nat)
    (reply : option (string * string)) :
  next_round upper db room_code_ name_ idx reply = Ok db' ->
  (forall r, round_votes db' (upper room_code_) r = []) /\
  (forall c2 r, c2 <> upper room_code_ -> round_votes db' c2 r = round_votes db c2 r) /\
  round_results db' = round_results db /\
  (forall c, get_players_public db' c = get_players_public db c) /\
  get_room_status upper db' room_code_ = Ok (ongoing, discussion) /\
  get_vote_count db' (upper room_code_) = 0%nat.
Proof.
  unfold next_round; intro H; break_ok H; inversion H; subst db'; clear H.
  pose proof (assign_words_and_roles_tables _ _ _ _ _ _ E0)
    as (Hrooms & Hvotes & Hres & _ & Hplayers).
  assert (forall r, round_votes
                      (set_votes (set_rooms (fst a0)
                                    (open_discussion (fst a0) (upper room_code_)))
                         (filter (fun v => negb (v_room_code v =s upper room_code_))
                                 (votes (set_rooms (fst a0)
                                    (open_discussion (fst a0) (upper room_code_))))))
                      (upper room_code_) r = []) as Hnone.
  { intro rnd; unfold round_votes; simpl.
    apply filter_filter_drop; intros v Hc.
    apply same_code in Hc; rewrite Hc; reflexivity. }
  split; [exact Hnone | split; [| split; [| split; [| split]]]].
  - intros c2 rnd Hne; unfold round_votes; simpl; rewrite Hvotes.
    apply filter_filter_keep; intros v Hc.
    apply andb_true_iff in Hc; destruct Hc as [Hc _].
    eapply other_code; eauto.
  - simpl; exact Hres.
  - intro c; unfold get_players_public, room_players; simpl.
    rewrite Hplayers, assign_loop.
    apply public_rows_kept; intro p; cbv beta.
    destruct (existsb _ (player_ids db (upper room_code_))); auto.
  - unfold get_room_status, find_room; simpl.
    unfold open_discussion; rewrite Hrooms.
    rewrite find_map_code
      by (intro rm; destruct (code rm =s upper room_code_); reflexivity).
    unfold find_room in Heqo; rewrite Heqo; simpl.
    apply find_some in Heqo; destruct Heqo as [_ Hc]; rewrite Hc; reflexivity.
  - unfold get_vote_count, distinct_voters; rewrite Hnone; reflexivity.
Qed.

(** ** The leaderboard *)

Lemma insert_by_score_perm (x : string * Z) (l : list (string * Z)) :
  Permutation (insert_by_score x l) (x :: l).
Proof.
  induction l as [| y t IH]; simpl; [apply Permutation_refl |].
  destruct (snd x <? snd y); [| apply Permutation_refl].
  apply perm_trans with (y :: x :: t); [apply perm_skip, IH | apply perm_swap].
Qed.

Lemma insert_by_score_sorted (x : string * Z) (l : list (string * Z)) :
  Sorted (fun a b => snd b <= snd a) l ->
  Sorted (fun a b => snd b <= snd a) (insert_by_score x l).
Proof.
  induction l as [| y t IH]; simpl; intro H; [repeat constructor |].
  destruct (snd x <? snd y) eqn:L.
  - apply Z.ltb_lt in L.
    inversion H as [| ? ? Ht Hhd]; subst.
    constructor; [apply IH, Ht |].
    destruct t as [| z t']; simpl; [constructor; apply Z.lt_le_incl, L |].
    destruct (snd x <? snd z); constructor; [| apply Z.lt_le_incl, L].
    inversion Hhd; assumption.
  - apply Z.ltb_ge in L.
    constructor; [exact H | constructor; exact L].
Qed.

(** X17: the leaderboard lists the name and score of every player of the
    room, each once, with no score above the one listed before it. *)
Theorem leaderboard_sorted (db : DB) (room_code_ : string) :
  Permutation (leaderboard upper db room_code_)
              (get_players_public db (upper room_code_)) /\
  Sorted (fun a b => snd b <= snd a) (leaderboard upper db room_code_).
Proof.
  unfold leaderboard, get_players_public, order_by_score_desc.
  induction (map (fun p => (name p, score p)) (room_players db (upper room_code_)))
    as [| x l [IHp IHs]]; simpl.
  - split; constructor.
  - split.
    + apply perm_trans with (x :: fold_right insert_by_score [] l);
        [apply insert_by_score_perm | apply perm_skip, IHp].
    + apply insert_by_score_sorted, IHs.
Qed.

(** ** What the result requests show *)

Lemma result_rows_none (db : DB) (c : string) (r : Z) :
  (forall x, In x (round_results db) -> r_room_code x <> c) ->
  result_rows db c r = [].
Proof.
  intro H; unfold result_rows.
  destruct (filter _ (round_results db)) as [| x l] eqn:E; [reflexivity | exfalso].
  assert (In x (filter (fun x => (r_room_code x =s c) && (r_round x =? r))
                       (round_results db))) as Hin by (rewrite E; left; reflexivity).
  apply filter_In in Hin; destruct Hin as [Hin K].
  apply andb_true_iff in K; destruct K as [K _]; apply String.eqb_eq in K.
  exact (H x Hin K).
Qed.

(** X18: in a store the service can reach, round-results shows no
    eliminated player for a room that has no round result; after the
    room's first end-round it shows the player that end-round eliminated
    and recorded, with the role that player has.  This holds however the
    store orders the rows it hands out and however the tie between names
    of equal count was settled. *)
Theorem round_results_show_first_resolution (db db' : DB) (room_code_ : string)
    (tie : nat) (order_votes : list Vote -> list Vote)
    (order_players : list Player -> list Player) (pick pick' : nat) :
  reachable upper db ->
  (forall x, In x (round_results db) -> r_room_code x <> upper room_code_) ->
  end_round upper db room_code_ tie = Ok db' ->
  snd (fst (fst (get_round_results upper order_votes order_players pick db room_code_)))
  = None /\
  exists n e,
    top_voted tie (round_votes db (upper room_code_) 1) = Some n /\
    find_player db (upper room_code_) n = Some e /\
    round_results db'
    = round_results db ++ [mkResult (upper room_code_) 1 n (is_mafia e)] /\
    snd (fst (fst (get_round_results upper order_votes order_players pick' db'
                                     room_code_))) = Some n /\
    snd (fst (get_round_results upper order_votes order_players pick' db' room_code_))
    = is_mafia e.
Proof.
  intros Hreach Hfresh H.
  assert (reachable upper db') as Hreach'
      by (eapply reach_step with (cmd := EndRound room_code_ tie); eauto).
  destruct (reachable_round_one db Hreach) as [Hone _].
  destruct (reachable_round_one db' Hreach') as [Hone' _].
  pose proof (current_round_ones db (upper room_code_) Hone) as Hr.
  pose proof (current_round_ones db' (upper room_code_) Hone') as Hr'.
  split.
  - unfold get_round_results, find_result; simpl.
    rewrite result_rows_none by exact Hfresh; simpl.
    destruct pick; reflexivity.
  - unfold end_round in H; rewrite Hr in H.
    destruct (top_voted tie _) as [n |] eqn:T; [| discriminate H].
    destruct (find_player db (upper room_code_) n) as [e |] eqn:F; [| discriminate H].
    apply bind_ok in H; destruct H as [ps [_ H]].
    inversion H; subst db'; clear H.
    exists n, e.
    split; [first [exact T | reflexivity] |].
    split; [first [exact F | reflexivity] | split; [reflexivity |]].
    assert (result_rows (record_result db ps (upper room_code_) 1 n (is_mafia e))
                        (upper room_code_) 1
            = [mkResult (upper room_code_) 1 n (is_mafia e)]) as R.
    { unfold result_rows; simpl; rewrite filter_app; simpl.
      rewrite String.eqb_refl; simpl.
      change (filter (fun x => (r_room_code x =s upper room_code_) && (r_round x =? 1))
                     (round_results db))
        with (result_rows db (upper room_code_) 1).
      rewrite result_rows_none by exact Hfresh; reflexivity. }
    unfold get_round_results, find_result; simpl; rewrite Hr', R.
    change (List.length [mkResult (upper room_code_) 1 n (is_mafia e)]) with 1%nat.
    rewrite Nat.mod_1_r; simpl; split; reflexivity.
Qed.

(** X19: a vote that is stored resolves the round exactly when, counted
    with it, the distinct voters of the round are at least as many as the
    players of the room; short of that it changes nothing but the votes. *)
Theorem vote_resolves_at_quorum (db db' : DB) (room_code_ voter voted : string) (tie : nat) :
  vote upper db room_code_ voter voted tie = Ok db' ->
  ((List.length (room_players db (upper room_code_))
    <= distinct_voters db' (upper room_code_) (current_round db (upper room_code_)))%nat ->
   exists n m,
     round_results db'
     = round_results db
       ++ [mkResult (upper room_code_) (current_round db (upper room_code_)) n m]) /\
  ((distinct_voters db' (upper room_code_) (current_round db (upper room_code_))
    < List.length (room_players db (upper room_code_)))%nat ->
   round_results db' = round_results db /\ players db' = players db /\
   rooms db' = rooms db).
Proof.
  intro H.
  pose proof (vote_votes upper _ _ _ _ _ _ H) as Hv.
  assert (distinct_voters db' (upper room_code_) (current_round db (upper room_code_))
          = distinct_voters
              (set_votes db
                 (upsert_vote (votes db) (upper room_code_)
                    (current_round db (upper room_code_)) voter voted))
              (upper room_code_) (current_round db (upper room_code_))) as Hd
      by (unfold distinct_voters, round_votes; rewrite Hv; reflexivity).
  rewrite Hd; unfold vote in H.
  change (room_players
            (set_votes db
               (upsert_vote (votes db) (upper room_code_)
                  (current_round db (upper room_code_)) voter voted))
            (upper room_code_))
    with (room_players db (upper room_code_)) in H.
  destruct (_ <=? _)%nat eqn:Q.
  - apply Nat.leb_le in Q; split; [intros _ | lia].
    apply resolution_row in H; destruct H as (n & e & _ & Hr); eauto.
  - apply Nat.leb_gt in Q; split; [lia | intros _].
    inversion H; auto.
Qed.

End Further.

(** * The further properties on the concrete games *)

Lemma reachable_keys_unique_witness :
  NoDup (map code (rooms resolved_store)) /\
  NoDup (map id (players resolved_store)) /\
  NoDup (map player_key (players resolved_store)).
Proof.
  exact (reachable_keys_unique ascii_upper resolved_store
           (reachable_from_empty three_player_game)).
Defined.

Lemma rooms_keep_host_witness :
  run ascii_upper (StartVoting "ABCDEF" "Ann") discussion_store = Ok voting_store /\
  In (mkRoom "ABCDEF" 1 "Ann" ongoing voting) (rooms voting_store) /\
  ((exists rm, In rm (rooms discussion_store) /\
               code rm = code (mkRoom "ABCDEF" 1 "Ann" ongoing voting) /\
               host_name rm = host_name (mkRoom "ABCDEF" 1 "Ann" ongoing voting) /\
               mafia_count rm = mafia_count (mkRoom "ABCDEF" 1 "Ann" ongoing voting) /\
               (status (mkRoom "ABCDEF" 1 "Ann" ongoing voting) = waiting ->
                status rm = waiting))
   \/
   (~ In (code (mkRoom "ABCDEF" 1 "Ann" ongoing voting))
         (map code (rooms discussion_store)) /\
    status (mkRoom "ABCDEF" 1 "Ann" ongoing voting) = waiting /\
    current_phase (mkRoom "ABCDEF" 1 "Ann" ongoing voting) = no_phase)).
Proof.
  assert (run ascii_upper (StartVoting "ABCDEF" "Ann") discussion_store = Ok voting_store)
    as Hrun by (vm_compute; reflexivity).
  assert (In (mkRoom "ABCDEF" 1 "Ann" ongoing voting) (rooms voting_store)) as Hin
      by (vm_compute; auto).
  split; [exact Hrun | split; [exact Hin |]].
  exact (rooms_keep_host ascii_upper (StartVoting "ABCDEF" "Ann") discussion_store
           voting_store (mkRoom "ABCDEF" 1 "Ann" ongoing voting) Hrun Hin).
Defined.

Lemma scores_only_grow_witness :
  run ascii_upper (CastVote "ABCDEF" "Cara" "Bob" 0%nat) two_votes_store = Ok resolved_store /\
  In (mkPlayer 1 "ABCDEF" "Ann" (Some false) false (Some "apple") 1 1)
     (players resolved_store) /\
  ((exists p, In p (players two_votes_store) /\
              id p = id (mkPlayer 1 "ABCDEF" "Ann" (Some false) false (Some "apple") 1 1) /\
              room_code p
              = room_code (mkPlayer 1 "ABCDEF" "Ann" (Some false) false (Some "apple") 1 1) /\
              name p = name (mkPlayer 1 "ABCDEF" "Ann" (Some false) false (Some "apple") 1 1) /\
              score p
              <= score (mkPlayer 1 "ABCDEF" "Ann" (Some false) false (Some "apple") 1 1)
              <= score p + 1)
   \/
   (~ In (id (mkPlayer 1 "ABCDEF" "Ann" (Some false) false (Some "apple") 1 1))
         (map id (players two_votes_store)) /\
    score (mkPlayer 1 "ABCDEF" "Ann" (Some false) false (Some "apple") 1 1) = 0 /\
    is_mafia (mkPlayer 1 "ABCDEF" "Ann" (Some false) false (Some "apple") 1 1) = None /\
    word (mkPlayer 1 "ABCDEF" "Ann" (Some false) false (Some "apple") 1 1) = None)).
Proof.
  assert (run ascii_upper (CastVote "ABCDEF" "Cara" "Bob" 0%nat) two_votes_store
          = Ok resolved_store) as Hrun by (vm_compute; reflexivity).
  assert (In (mkPlayer 1 "ABCDEF" "Ann" (Some false) false (Some "apple") 1 1)
             (players resolved_store)) as Hin by (vm_compute; auto).
  split; [exact Hrun | split; [exact Hin |]].
  exact (scores_only_grow ascii_upper (CastVote "ABCDEF" "Cara" "Bob" 0%nat) two_votes_store
           resolved_store
           (mkPlayer 1 "ABCDEF" "Ann" (Some false) false (Some "apple") 1 1) Hrun Hin).
Defined.

Lemma round_counter_is_stuck_witness :
  round_results next_round_store = [mkResult "ABCDEF" 1 "Bob" (Some true)] /\
  map round (players next_round_store) = [2; 2; 2] /\
  (forall x, In x (round_results next_round_store) -> r_round x = 1) /\
  (forall v, In v (votes next_round_store) -> v_round v = 1) /\
  current_round next_round_store "ABCDEF" = 1 /\
  py_or (max_round next_round_store "ABCDEF") 0 + 1
  = (if existsb (fun x => r_room_code x =s "ABCDEF") (round_results next_round_store)
     then 2 else 1).
Proof.
  split; [vm_compute; reflexivity | split; [vm_compute; reflexivity |]].
  exact (round_counter_is_stuck ascii_upper next_round_store "ABCDEF"
           (reachable_from_empty
              (three_player_game ++ [NextRound "ABCDEF" "Ann" [0%nat] None]))).
Defined.

Lemma reachable_rows_have_room_witness :
  (forall p, In p (players resolved_store) ->
             In (room_code p) (map code (rooms resolved_store))) /\
  (forall v, In v (votes resolved_store) ->
             In (v_room_code v) (map code (rooms resolved_store))) /\
  (forall x, In x (round_results resolved_store) ->
             In (r_room_code x) (map code (rooms resolved_store))).
Proof.
  exact (reachable_rows_have_room ascii_upper resolved_store
           (reachable_from_empty three_player_game)).
Defined.

Lemma create_room_round_trip_witness :
  create_room empty_db 1 "Ann" (fun _ => "ABCDEF") 1 = Ok created_store /\
  exists c,
    (exists i, (i < 10)%nat /\ (fun _ : nat => "ABCDEF") i = c) /\
    rooms created_store = rooms empty_db ++ [mkRoom c 1 "Ann" waiting no_phase] /\
    players created_store = players empty_db ++ [new_player 1 c "Ann"] /\
    votes created_store = votes empty_db /\
    round_results created_store = round_results empty_db /\
    find_room created_store c = Some (mkRoom c 1 "Ann" waiting no_phase) /\
    get_player_word created_store c "Ann" = Ok (None, None) /\
    (ascii_upper c = c ->
     check_host ascii_upper created_store c "Ann" = true /\
     get_room_status ascii_upper created_store c = Ok (waiting, no_phase)).
Proof.
  assert (create_room empty_db 1 "Ann" (fun _ => "ABCDEF") 1 = Ok created_store) as Hrun
      by (vm_compute; reflexivity).
  split; [exact Hrun |].
  exact (create_room_round_trip ascii_upper empty_db created_store 1 "Ann"
           (fun _ => "ABCDEF") 1 Hrun).
Defined.

Lemma start_voting_once_witness :
  start_voting ascii_upper discussion_store "ABCDEF" "Ann" = Ok voting_store /\
  start_voting ascii_upper voting_store "ABCDEF" "Ann" = Err BadRequest.
Proof.
  assert (start_voting ascii_upper discussion_store "ABCDEF" "Ann" = Ok voting_store)
    as Hrun by (vm_compute; reflexivity).
  split; [exact Hrun |].
  exact (proj2 (proj2 (proj2 (proj2
           (start_voting_once ascii_upper discussion_store voting_store "ABCDEF" "Ann"
              Hrun))))).
Defined.

Lemma end_game_cleans_witness :
  end_game ascii_upper resolved_store "ABCDEF" "Ann" = Ok ended_game_store /\
  filter (fun rm => code rm =s ascii_upper "ABCDEF") (rooms ended_game_store) = [] /\
  filter (fun p => room_code p =s ascii_upper "ABCDEF") (players ended_game_store) = [] /\
  filter (fun v => v_room_code v =s ascii_upper "ABCDEF") (votes ended_game_store) = [] /\
  filter (fun x => r_room_code x =s ascii_upper "ABCDEF") (round_results ended_game_store)
  = [] /\
  find_room ended_game_store (ascii_upper "ABCDEF") = None /\
  (forall r, round_votes ended_game_store (ascii_upper "ABCDEF") r = []) /\
  max_round ended_game_store (ascii_upper "ABCDEF") = None /\
  get_room_status ascii_upper ended_game_store "ABCDEF" = Err NotFound.
Proof.
  assert (end_game ascii_upper resolved_store "ABCDEF" "Ann" = Ok ended_game_store)
    as Hrun by (vm_compute; reflexivity).
  split; [exact Hrun |].
  exact (proj1 (end_game_cleans ascii_upper resolved_store ended_game_store
                  "ABCDEF" "Ann" Hrun)).
Defined.

Lemma resolution_eliminates_plurality_witness :
  end_round ascii_upper votes_on_cara_store "ABCDEF" 0%nat
  = Ok (step ascii_upper votes_on_cara_store (EndRound "ABCDEF" 0%nat)) /\
  exists n e,
    round_results (step ascii_upper votes_on_cara_store (EndRound "ABCDEF" 0%nat))
    = round_results votes_on_cara_store ++ [mkResult "ABCDEF" 1 n (is_mafia e)] /\
    find_player votes_on_cara_store "ABCDEF" n = Some e /\
    (0 < count_for n (round_votes votes_on_cara_store "ABCDEF" 1))%nat /\
    (forall m, (count_for m (round_votes votes_on_cara_store "ABCDEF" 1)
                <= count_for n (round_votes votes_on_cara_store "ABCDEF" 1))%nat) /\
    (forall rm, In rm (rooms (step ascii_upper votes_on_cara_store (EndRound "ABCDEF" 0%nat))) ->
                code rm = "ABCDEF" -> status rm = ended).
Proof.
  assert (end_round ascii_upper votes_on_cara_store "ABCDEF" 0%nat
          = Ok (step ascii_upper votes_on_cara_store (EndRound "ABCDEF" 0%nat))) as Hrun
      by (vm_compute; reflexivity).
  split; [exact Hrun |].
  apply (resolution_eliminates_plurality ascii_upper votes_on_cara_store
           (step ascii_upper votes_on_cara_store (EndRound "ABCDEF" 0%nat)) "ABCDEF" 1
           0%nat).
  right; exists "ABCDEF".
  split; [reflexivity | split; [vm_compute; reflexivity | exact Hrun]].
Defined.

Lemma vote_needs_players_witness :
  room_players empty_db (ascii_upper "zzzzzz") = [] /\
  vote ascii_upper empty_db "zzzzzz" "Ann" "Bob" 0%nat = Err ServerError /\
  step ascii_upper empty_db (CastVote "zzzzzz" "Ann" "Bob" 0%nat) = empty_db.
Proof.
  split; [reflexivity |].
  exact (vote_needs_players ascii_upper empty_db "zzzzzz" "Ann" "Bob" 0%nat eq_refl).
Defined.

Lemma new_voter_counts_once_witness :
  vote ascii_upper two_votes_store "ABCDEF" "Cara" "Bob" 0%nat = Ok resolved_store /\
  votes resolved_store
  = votes two_votes_store
    ++ [mkVote (ascii_upper "ABCDEF")
               (current_round two_votes_store (ascii_upper "ABCDEF")) "Cara" "Bob"] /\
  distinct_voters resolved_store (ascii_upper "ABCDEF")
                  (current_round two_votes_store (ascii_upper "ABCDEF"))
  = S (distinct_voters two_votes_store (ascii_upper "ABCDEF")
                       (current_round two_votes_store (ascii_upper "ABCDEF"))).
Proof.
  assert (vote ascii_upper two_votes_store "ABCDEF" "Cara" "Bob" 0%nat = Ok resolved_store)
    as Hrun by (vm_compute; reflexivity).
  assert (~ In (ascii_upper "ABCDEF", "Cara",
                current_round two_votes_store (ascii_upper "ABCDEF"))
               (map vote_key (votes two_votes_store))) as Hnew.
  { vm_compute; intros [H | [H | []]]; discriminate H. }
  split; [exact Hrun |].
  exact (new_voter_counts_once ascii_upper two_votes_store resolved_store
           "ABCDEF" "Cara" "Bob" 0%nat Hnew Hrun).
Defined.

Lemma next_round_resets_witness :
  next_round ascii_upper resolved_store "ABCDEF" "Ann" [0%nat] None = Ok next_round_store /\
  get_players_public resolved_store "ABCDEF" = [("Ann", 1); ("Bob", 0); ("Cara", 1)] /\
  (forall r, round_votes next_round_store (ascii_upper "ABCDEF") r = []) /\
  (forall c2 r, c2 <> ascii_upper "ABCDEF" ->
                round_votes next_round_store c2 r = round_votes resolved_store c2 r) /\
  round_results next_round_store = round_results resolved_store /\
  (forall c, get_players_public next_round_store c = get_players_public resolved_store c) /\
  get_room_status ascii_upper next_round_store "ABCDEF" = Ok (ongoing, discussion) /\
  get_vote_count next_round_store (ascii_upper "ABCDEF") = 0%nat.
Proof.
  assert (next_round ascii_upper resolved_store "ABCDEF" "Ann" [0%nat] None
          = Ok next_round_store) as Hrun by (vm_compute; reflexivity).
  split; [exact Hrun | split; [vm_compute; reflexivity |]].
  exact (next_round_resets ascii_upper resolved_store next_round_store "ABCDEF" "Ann"
           [0%nat] None Hrun).
Defined.

Lemma round_results_show_first_resolution_witness :
  end_round ascii_upper votes_on_cara_store "ABCDEF" 0%nat
  = Ok (step ascii_upper votes_on_cara_store (EndRound "ABCDEF" 0%nat)) /\
  snd (fst (fst (get_round_results ascii_upper (fun vs => vs) (fun ps => ps) 0%nat
                                   votes_on_cara_store "ABCDEF"))) = None /\
  exists n e,
    top_voted 0%nat (round_votes votes_on_cara_store (ascii_upper "ABCDEF") 1) = Some n /\
    find_player votes_on_cara_store (ascii_upper "ABCDEF") n = Some e /\
    round_results (step ascii_upper votes_on_cara_store (EndRound "ABCDEF" 0%nat))
    = round_results votes_on_cara_store
      ++ [mkResult (ascii_upper "ABCDEF") 1 n (is_mafia e)] /\
    snd (fst (fst (get_round_results ascii_upper (fun vs => vs) (fun ps => ps) 0%nat
                     (step ascii_upper votes_on_cara_store (EndRound "ABCDEF" 0%nat))
                     "ABCDEF"))) = Some n /\
    snd (fst (get_round_results ascii_upper (fun vs => vs) (fun ps => ps) 0%nat
                (step ascii_upper votes_on_cara_store (EndRound "ABCDEF" 0%nat))
                "ABCDEF")) = is_mafia e.
Proof.
  assert (end_round ascii_upper votes_on_cara_store "ABCDEF" 0%nat
          = Ok (step ascii_upper votes_on_cara_store (EndRound "ABCDEF" 0%nat))) as Hrun
      by (vm_compute; reflexivity).
  assert (forall x, In x (round_results votes_on_cara_store) ->
                    r_room_code x <> ascii_upper "ABCDEF") as Hfresh
      by (vm_compute; intros x []).
  split; [exact Hrun |].
  exact (round_results_show_first_resolution ascii_upper votes_on_cara_store
           (step ascii_upper votes_on_cara_store (EndRound "ABCDEF" 0%nat)) "ABCDEF"
           0%nat (fun vs => vs) (fun ps => ps) 0%nat 0%nat
           (reachable_from_empty
              (firstn 5 three_player_game
               ++ [CastVote "ABCDEF" "Ann" "Cara" 0%nat;
                   CastVote "ABCDEF" "Bob" "Cara" 0%nat]))
           Hfresh Hrun).
Defined.

Lemma vote_resolves_at_quorum_witness :
  vote ascii_upper two_votes_store "ABCDEF" "Cara" "Bob" 0%nat = Ok resolved_store /\
  (List.length (room_players two_votes_store (ascii_upper "ABCDEF"))
   <= distinct_voters resolved_store (ascii_upper "ABCDEF")
        (current_round two_votes_store (ascii_upper "ABCDEF")))%nat /\
  exists n m,
    round_results resolved_store
    = round_results two_votes_store
      ++ [mkResult (ascii_upper "ABCDEF")
                   (current_round two_votes_store (ascii_upper "ABCDEF")) n m].
Proof.
  assert (vote ascii_upper two_votes_store "ABCDEF" "Cara" "Bob" 0%nat = Ok resolved_store)
    as Hrun by (vm_compute; reflexivity).
  assert (List.length (room_players two_votes_store (ascii_upper "ABCDEF"))
          <= distinct_voters resolved_store (ascii_upper "ABCDEF")
               (current_round two_votes_store (ascii_upper "ABCDEF")))%nat as Hq
      by (vm_compute; lia).
  split; [exact Hrun | split; [exact Hq |]].
  exact (proj1 (vote_resolves_at_quorum ascii_upper two_votes_store resolved_store
                  "ABCDEF" "Cara" "Bob" 0%nat Hrun) Hq).
Defined.

Lemma status_and_phase_agree_witness :
  (In (mkRoom "ABCDEF" 1 "Ann" waiting no_phase) (rooms lobby_store) /\
   current_phase (mkRoom "ABCDEF" 1 "Ann" waiting no_phase) = no_phase) /\
  (In (mkRoom "ABCDEF" 1 "Ann" ongoing discussion) (rooms discussion_store) /\
   (current_phase (mkRoom "ABCDEF" 1 "Ann" ongoing discussion) = discussion \/
    current_phase (mkRoom "ABCDEF" 1 "Ann" ongoing discussion) = voting)) /\
  (In (mkRoom "ABCDEF" 1 "Ann" ended voting) (rooms resolved_store) /\
   (status (mkRoom "ABCDEF" 1 "Ann" ended voting) = ongoing \/
    status (mkRoom "ABCDEF" 1 "Ann" ended voting) = ended)).
Proof.
  assert (In (mkRoom "ABCDEF" 1 "Ann" waiting no_phase) (rooms lobby_store)) as H1
      by (vm_compute; auto).
  assert (In (mkRoom "ABCDEF" 1 "Ann" ongoing discussion) (rooms discussion_store)) as H2
      by (vm_compute; auto).
  assert (In (mkRoom "ABCDEF" 1 "Ann" ended voting) (rooms resolved_store)) as H3
      by (vm_compute; auto).
  split; [| split].
  - split; [exact H1 |].
    exact (proj1 (proj2 (status_and_phase_agree ascii_upper lobby_store
                           (mkRoom "ABCDEF" 1 "Ann" waiting no_phase)
                           (reachable_from_empty (firstn 3 three_player_game)) H1))
                 eq_refl).
  - split; [exact H2 |].
    exact (proj1 (status_and_phase_agree ascii_upper discussion_store
                    (mkRoom "ABCDEF" 1 "Ann" ongoing discussion)
                    (reachable_from_empty (firstn 4 three_player_game)) H2)
                 eq_refl).
  - split; [exact H3 |].
    exact (proj2 (proj2 (status_and_phase_agree ascii_upper resolved_store
                           (mkRoom "ABCDEF" 1 "Ann" ended voting)
                           (reachable_from_empty three_player_game) H3))
                 (or_intror eq_refl)).
Defined.

